(** * Resilient paginated ingestion: the Jira scraper

    A shallow embedding of [scraper.ts] (progress loading, the rate limiter,
    [fetchPageWithRetry], [scrapeProject] and [main]) as state-passing
    functions over an explicit [World]: a logical millisecond clock, the
    module-level variables [lastRequestTime] and [progress], the files the
    scraper reads and writes, and a log of what it did.

    The remote service is a function [Server] that gives the reply to the
    n-th outbound GET.  The [while (true)] loop of [scrapeProject] runs on
    fuel; running out of fuel is the process being killed at the head of an
    iteration, and leaves the world as the killed process would. *)

From Stdlib Require Import ZArith List Bool Lia Ascii String.
From stdpp Require Import base option list gmap strings fin_maps.
Import ListNotations.

Local Open Scope Z_scope.

(** ** Values of the host language *)

Module JS.

(** A number that holds an integer, or [NaN] ([None]). *)
Definition number : Type := option Z.

Definition is_space (c : ascii) : bool :=
  let n := nat_of_ascii c in
  ((9 <=? n)%nat && (n <=? 13)%nat) || (n =? 32)%nat.

Definition digit_of (c : ascii) : option Z :=
  let n := nat_of_ascii c in
  if ((48 <=? n)%nat && (n <=? 57)%nat)%bool
  then Some (Z.of_nat n - 48) else None.

Fixpoint skip_spaces (s : string) : string :=
  match s with
  | String c r => if is_space c then skip_spaces r else s
  | EmptyString => s
  end.

(** The longest prefix of decimal digits, read as a number; [acc] is
    [None] until a digit has been seen. *)
Fixpoint read_digits (acc : number) (s : string) : number :=
  match s with
  | String c r =>
      match digit_of c with
      | Some d => read_digits (Some (10 * default 0 acc + d)) r
      | None => acc
      end
  | EmptyString => acc
  end.

(** [parseInt(s, 10)]: leading white space, an optional sign, then
    digits; [NaN] when no digit follows.  (Integers are kept exact.) *)
Definition parseInt (s : string) : number :=
  match skip_spaces s with
  | String "-"%char r => Z.opp <$> read_digits None r
  | String "+"%char r => read_digits None r
  | r => read_digits None r
  end.

(** Truthiness of a string: only the empty string is falsy. *)
Definition truthy_string (s : string) : bool :=
  match s with EmptyString => false | _ => true end.

Definition TIMEOUT_MAX : Z := 2147483647.

(** The duration [setTimeout] really arms: anything that is not a number
    in [1 .. TIMEOUT_MAX] (so also [NaN], zero and negatives) becomes 1. *)
Definition timer_ms (ms : number) : Z :=
  match ms with
  | Some n => if (1 <=? n) && (n <=? TIMEOUT_MAX) then n else 1
  | None => 1
  end.

End JS.

Arguments JS.timer_ms : simpl never.
Arguments JS.parseInt : simpl never.

(** A call either returns a value or throws. *)
Inductive Completion (E A : Type) : Type :=
| Return (a : A)
| Throw (e : E).
Arguments Return {E A} a.
Arguments Throw {E A} e.

(** ** The remote service as the scraper sees it *)

(** An issue of the tracker; the scraper never looks inside one. *)
Definition Issue : Type := nat.

(** The search URL; everything but the project and [startAt] is constant
    ([maxResults=50], the [expand] and [fields] lists). *)
Record Url : Type := mkUrl { url_project : string; url_startAt : Z }.

(** [resp.data] when it is truthy: [issues] is [data.issues], which may be
    missing. *)
Record Body : Type := mkBody { issues : option (list Issue) }.

Record Response : Type := mkResponse {
  status : Z;
  retry_after : option string;     (* resp.headers['retry-after'] *)
  data : option Body               (* None: a falsy resp.data *)
}.

(** What comes back from the network for one GET. *)
Inductive Outcome : Type :=
| HttpResponse (resp : Response)
| NetworkFailure (code : string).   (* transport error carrying [error.code] *)

Record Reply : Type := mkReply {
  latency : nat;                   (* ms between issuing the GET and its end *)
  outcome : Outcome
}.

(** The reply to the [n]-th GET of the process (counted from 0). *)
Definition Server : Type := nat -> Url -> Reply.

Inductive Error : Type :=
| AxiosError (code : string) (http_status : option Z)
| RateLimited                      (* 'Rate limited - retrying' *)
| ServerError (http_status : Z)    (* `Server error: ${status}` *)
| EmptyResponse                    (* 'Empty response' *)
| NetworkError (code : string)     (* `Network error: ${code}` *)
| SyntaxError.                     (* JSON.parse *)

(** [error.code]: only errors made by axios carry one. *)
Definition error_code (e : Error) : option string :=
  match e with
  | AxiosError c _ => Some c
  | _ => None
  end.

(** ** Files *)

(** The text of progress.json as [JSON.parse] takes it: either it does not
    parse, or it is an object mapping a project to its [lastStartAt]. *)
Inductive ProgressText : Type :=
| Malformed
| Document (doc : gmap string Z).

(** ** What the process does, as a log (newest entry first) *)

Inductive Message : Type :=
| MsgSection (project : string)                (* UI.section *)
| MsgRateLimited (retryAfter : JS.number)      (* UI.warning, on 429 *)
| MsgAttemptFailed (attemptNumber retriesLeft : nat)
| MsgFetchFailed (startAt : Z) (err : Error)   (* console.error *)
| MsgFinished (project : string) (saved : nat).

Inductive Event : Type :=
| EvGet (at_ms : Z) (url : Url) (reply : Reply)
| EvSleep (ms : Z)
| EvUI (m : Message)
| EvSaveProgress (snapshot : gmap string Z)
| EvWriteRaw (project : string) (content : list Issue).

Record World : Type := mkWorld {
  clock : Z;                                   (* Date.now() *)
  lastRequestTime : Z;
  progress : gmap string Z;                    (* progress[p].lastStartAt *)
  progress_json : option ProgressText;         (* None: no such file *)
  raw_dir : gmap string (list Issue);          (* data/raw/<project>.json *)
  requests : nat;                              (* GETs issued so far *)
  log : list Event
}.

Definition record (e : Event) (w : World) : World :=
  mkWorld (clock w) (lastRequestTime w) (progress w) (progress_json w)
          (raw_dir w) (requests w) (e :: log w).

Definition ui (m : Message) (w : World) : World := record (EvUI m) w.

(** [await delay(ms)]: the timer runs for its armed duration. *)
Definition delay (ms : JS.number) (w : World) : World :=
  let d := JS.timer_ms ms in
  mkWorld (clock w + d) (lastRequestTime w) (progress w) (progress_json w)
          (raw_dir w) (requests w) (EvSleep d :: log w).

(** ** Rate limiting *)

Definition MIN_REQUEST_INTERVAL : Z := 200.

Definition set_lastRequestTime (t : Z) (w : World) : World :=
  mkWorld (clock w) t (progress w) (progress_json w)
          (raw_dir w) (requests w) (log w).

(** The first lines of the callback handed to [pRetry]. *)
Definition rateLimit (w : World) : World :=
  let now := clock w in
  let timeSinceLastRequest := now - lastRequestTime w in
  let w1 :=
    if timeSinceLastRequest <? MIN_REQUEST_INTERVAL
    then delay (Some (MIN_REQUEST_INTERVAL - timeSinceLastRequest)) w
    else w in
  set_lastRequestTime (clock w1) w1.

(** ** One attempt *)

Definition validateStatus (st : Z) : bool := (st <? 500) || (st =? 429).

(** [axios.get]: rejects on a transport failure and on a status that
    [validateStatus] refuses. *)
Definition axios_get (o : Outcome) : Completion Error Response :=
  match o with
  | HttpResponse resp =>
      if validateStatus (status resp) then Return resp
      else Throw (AxiosError "ERR_BAD_RESPONSE" (Some (status resp)))
  | NetworkFailure code => Throw (AxiosError code None)
  end.

(** The GET goes out at the current clock and ends [latency] later. *)
Definition send (url : Url) (reply : Reply) (w : World) : World :=
  mkWorld (clock w + Z.of_nat (latency reply)) (lastRequestTime w)
          (progress w) (progress_json w) (raw_dir w) (S (requests w))
          (EvGet (clock w) url reply :: log w).

Definition retryAfter_of (resp : Response) : JS.number :=
  match retry_after resp with
  | Some h =>
      if JS.truthy_string h
      then (fun n => n * 1000) <$> JS.parseInt h
      else Some 60000
  | None => Some 60000
  end.

(** The body of the [try] block. *)
Definition try_block (reply : Reply) (w : World)
  : Completion Error Body * World :=
  match axios_get (outcome reply) with
  | Throw e => (Throw e, w)
  | Return resp =>
      if status resp =? 429 then
        let retryAfter := retryAfter_of resp in
        (Throw RateLimited, delay retryAfter (ui (MsgRateLimited retryAfter) w))
      else if 500 <=? status resp then
        (Throw (ServerError (status resp)), w)
      else
        match data resp with
        | None => (Throw EmptyResponse, w)
        | Some d => (Return d, w)
        end
  end.

Definition is_network_code (c : string) : bool :=
  (String.eqb c "ECONNRESET" || String.eqb c "ETIMEDOUT"
   || String.eqb c "ECONNABORTED")%bool.

(** The [catch] block: what is thrown on. *)
Definition catch_block (e : Error) : Error :=
  match error_code e with
  | Some c => if is_network_code c then NetworkError c else e
  | None => e
  end.

(** The callback handed to [pRetry]. *)
Definition attempt (srv : Server) (url : Url) (w : World)
  : Completion Error Body * World :=
  let w1 := rateLimit w in
  let reply := srv (requests w1) url in
  let w2 := send url reply w1 in
  match try_block reply w2 with
  | (Return d, w3) => (Return d, w3)
  | (Throw e, w3) => (Throw (catch_block e), w3)
  end.

(** ** Retrying *)

(** [p-retry] is a library of the run time, taken by its documented
    behaviour: [retries] is the number of retries after the first attempt;
    before retry [k] it waits [min(minTimeout * factor^(k-1), maxTimeout)]
    with [factor = 2] and no randomisation; [onFailedAttempt] runs after
    every failed attempt.  Every error thrown by [attempt] is an [Error]
    that is neither an [AbortError] nor a [TypeError], so each is retried.
    The rejection is given here as the error of the last attempt; the
    caller only prints it. *)
Record RetryOptions : Type := mkRetryOptions {
  retries : nat;
  minTimeout : Z;
  maxTimeout : Z
}.

Definition backoffDelay (o : RetryOptions) (k : nat) : Z :=
  Z.min (minTimeout o * 2 ^ Z.of_nat (k - 1)) (maxTimeout o).

Definition onFailedAttempt (attemptNumber retriesLeft : nat) (w : World)
  : World :=
  ui (MsgAttemptFailed attemptNumber retriesLeft) w.

Fixpoint pRetry_from (o : RetryOptions)
    (f : World -> Completion Error Body * World)
    (retriesLeft attemptNumber : nat) (w : World)
  : Completion Error Body * World :=
  match f w with
  | (Return d, w1) => (Return d, w1)
  | (Throw e, w1) =>
      let w2 := onFailedAttempt attemptNumber retriesLeft w1 in
      match retriesLeft with
      | O => (Throw e, w2)
      | S n =>
          pRetry_from o f n (S attemptNumber)
                      (delay (Some (backoffDelay o attemptNumber)) w2)
      end
  end.

Definition pRetry (o : RetryOptions)
    (f : World -> Completion Error Body * World) (w : World)
  : Completion Error Body * World :=
  pRetry_from o f (retries o) 1%nat w.

Definition retry_options : RetryOptions := mkRetryOptions 5 2000 60000.

Definition fetchPageWithRetry (srv : Server) (url : Url) (w : World)
  : Completion Error Body * World :=
  pRetry retry_options (attempt srv url) w.

(** ** Pagination of one project *)

Record Config : Type := mkConfig {
  PROJECTS : list string;
  MAX_ISSUES : option Z;                        (* null, or a number *)
  PER_PROJECT_LIMITS : option (gmap string Z)   (* undefined, or a record *)
}.

(** [PER_PROJECT_LIMITS?.[project] ?? MAX_ISSUES] *)
Definition projectLimit_of (cfg : Config) (project : string) : option Z :=
  match PER_PROJECT_LIMITS cfg with
  | Some limits =>
      match limits !! project with
      | Some l => Some l
      | None => MAX_ISSUES cfg
      end
  | None => MAX_ISSUES cfg
  end.

(** [projectLimit && totalFetched >= projectLimit]; null and 0 are falsy. *)
Definition limit_reached (projectLimit : option Z) (totalFetched : Z) : bool :=
  match projectLimit with
  | Some l => negb (l =? 0) && (l <=? totalFetched)
  | None => false
  end.

(** [progress[project]?.lastStartAt || 0] *)
Definition cursor_of (pr : gmap string Z) (project : string) : Z :=
  match pr !! project with
  | Some c => if c =? 0 then 0 else c
  | None => 0
  end.

(** [data.issues || []] *)
Definition issues_of (d : Body) : list Issue :=
  match issues d with
  | Some l => l
  | None => []
  end.

(** The local variables of [scrapeProject]. *)
Record Locals : Type := mkLocals {
  allIssues : list Issue;
  startAt : Z;
  totalFetched : Z
}.

(** Which [break] left the loop. *)
Inductive StopReason : Type :=
| LimitReached        (* either limit check *)
| FetchFailed         (* the catch around fetchPageWithRetry *)
| Exhausted.          (* issues.length === 0 *)

Inductive LoopExit : Type :=
| Stop (reason : StopReason)
| Interrupted.        (* killed at the head of an iteration *)

(** [progress[project] = { lastStartAt }] and the write of progress.json. *)
Definition saveProgress (project : string) (c : Z) (w : World) : World :=
  let pr := <[project := c]> (progress w) in
  mkWorld (clock w) (lastRequestTime w) pr (Some (Document pr))
          (raw_dir w) (requests w) (EvSaveProgress pr :: log w).

Fixpoint scrapeLoop (srv : Server) (project : string) (projectLimit : option Z)
    (fuel : nat) (l : Locals) (w : World) : LoopExit * Locals * World :=
  match fuel with
  | O => (Interrupted, l, w)
  | S fuel' =>
      if limit_reached projectLimit (totalFetched l)
      then (Stop LimitReached, l, w)
      else
        match fetchPageWithRetry srv (mkUrl project (startAt l)) w with
        | (Throw err, w1) =>
            (Stop FetchFailed, l, ui (MsgFetchFailed (startAt l) err) w1)
        | (Return d, w1) =>
            let page := issues_of d in
            if (length page =? 0)%nat then (Stop Exhausted, l, w1)
            else
              let n := Z.of_nat (length page) in
              let l' := mkLocals (allIssues l ++ page) (startAt l + n)
                                 (totalFetched l + n) in
              let w2 := saveProgress project (startAt l') w1 in
              if limit_reached projectLimit (totalFetched l')
              then (Stop LimitReached, l', w2)
              else scrapeLoop srv project projectLimit fuel' l' w2
        end
  end.

(** The write of data/raw/<project>.json. *)
Definition writeRaw (project : string) (content : list Issue) (w : World)
  : World :=
  mkWorld (clock w) (lastRequestTime w) (progress w) (progress_json w)
          (<[project := content]> (raw_dir w)) (requests w)
          (EvWriteRaw project content :: log w).

Definition scrapeProject (cfg : Config) (srv : Server) (fuel : nat)
    (project : string) (w : World) : LoopExit * World :=
  let w0 := ui (MsgSection project) w in
  let l0 := mkLocals [] (cursor_of (progress w0) project) 0 in
  match scrapeLoop srv project (projectLimit_of cfg project) fuel l0 w0 with
  | (Interrupted, _, w1) => (Interrupted, w1)
  | (Stop r, l, w1) =>
      (Stop r,
       ui (MsgFinished project (length (allIssues l)))
          (writeRaw project (allIssues l) w1))
  end.

(** The [for] loop of [main]; [true] when every project was gone through. *)
Fixpoint scrapeAll (cfg : Config) (srv : Server) (fuel : nat)
    (projects : list string) (w : World) : bool * World :=
  match projects with
  | [] => (true, w)
  | project :: rest =>
      match scrapeProject cfg srv fuel project w with
      | (Interrupted, w1) => (false, w1)
      | (Stop _, w1) => scrapeAll cfg srv fuel rest w1
      end
  end.

Definition main (cfg : Config) (srv : Server) (fuel : nat) (w : World)
  : bool * World :=
  scrapeAll cfg srv fuel (PROJECTS cfg) w.

(** ** Start of the process *)

(** What is on disk between two runs. *)
Record Disk : Type := mkDisk {
  disk_progress : option ProgressText;
  disk_raw : gmap string (list Issue)
}.

(** The "Load progress" lines at the top of the module. *)
Definition loadProgress (d : Disk) : Completion Error (gmap string Z) :=
  match disk_progress d with
  | None => Return ∅
  | Some Malformed => Throw SyntaxError
  | Some (Document doc) => Return doc
  end.

Definition boot (now : Z) (d : Disk) (pr : gmap string Z) : World :=
  mkWorld now 0 pr (disk_progress d) (disk_raw d) 0%nat [].

Definition disk_of (w : World) : Disk := mkDisk (progress_json w) (raw_dir w).

(** One run of the script: module initialisation, then [main].  A throw
    during initialisation ends the process before [main] is reached. *)
Definition runScraper (cfg : Config) (srv : Server) (fuel : nat) (now : Z)
    (d : Disk) : Completion Error (bool * World) :=
  match loadProgress d with
  | Throw e => Throw e
  | Return pr => Return (main cfg srv fuel (boot now d pr))
  end.

(** ** Reading the log *)

(** The body a reply delivers when the [try] block lets it through. *)
Definition accepted (o : Outcome) : option Body :=
  match axios_get o with
  | Return resp =>
      if (status resp =? 429) || (500 <=? status resp) then None
      else data resp
  | Throw _ => None
  end.

(** The page a log entry brought in for project [p], if it did. *)
Definition page_for (p : string) (e : Event) : option (list Issue) :=
  match e with
  | EvGet _ url reply =>
      if String.eqb (url_project url) p
      then issues_of <$> accepted (outcome reply)
      else None
  | _ => None
  end.

(** The pages obtained for [p], oldest first. *)
Fixpoint pages (p : string) (evs : list Event) : list (list Issue) :=
  match evs with
  | [] => []
  | e :: older => pages p older ++ option_list (page_for p e)
  end.

(** All records obtained for [p], oldest first. *)
Definition received (p : string) (evs : list Event) : list Issue :=
  concat (pages p evs).

(** Issue times of the GETs, newest first. *)
Fixpoint get_times (evs : list Event) : list Z :=
  match evs with
  | [] => []
  | EvGet t _ _ :: older => t :: get_times older
  | _ :: older => get_times older
  end.

(** For each GET but the first, the time from the end of the GET before it
    to its own issue; newest first. *)
Fixpoint waits (evs : list Event) (next : option Z) : list Z :=
  match evs with
  | [] => []
  | EvGet t _ reply :: older =>
      match next with
      | Some t' => (t' - (t + Z.of_nat (latency reply))) :: waits older (Some t)
      | None => waits older (Some t)
      end
  | _ :: older => waits older next
  end.

(** The same, oldest first. *)
Definition observed_waits (evs : list Event) : list Z := rev (waits evs None).

(** Entries that touch no file. *)
Definition no_store (e : Event) : Prop :=
  match e with
  | EvSaveProgress _ | EvWriteRaw _ _ => False
  | _ => True
  end.

(** Entries that write no progress snapshot. *)
Definition no_save (e : Event) : Prop :=
  match e with
  | EvSaveProgress _ => False
  | _ => True
  end.

(** Entries that issue no request. *)
Definition no_get (e : Event) : Prop :=
  match e with
  | EvGet _ _ _ => False
  | _ => True
  end.

(** Every snapshot written so far holds, for [p], the cursor [c0] the
    process started from plus the number of records obtained before the
    write. *)
Fixpoint cursor_tracks (p : string) (c0 : Z) (evs : list Event) : Prop :=
  match evs with
  | [] => True
  | e :: older =>
      match e with
      | EvSaveProgress snap =>
          cursor_of snap p = c0 + Z.of_nat (length (received p older))
      | _ => True
      end /\ cursor_tracks p c0 older
  end.

(** GET times, newest first, are at least the interval apart. *)
Fixpoint spaced (ts : list Z) : Prop :=
  match ts with
  | t2 :: ((t1 :: _) as older) =>
      t1 + MIN_REQUEST_INTERVAL <= t2 /\ spaced older
  | _ => True
  end.

(** ** Restarts *)

Record Session : Type := mkSession {
  s_cfg : Config;
  s_srv : Server;
  s_fuel : nat;
  s_now : Z
}.

(** Successive runs of the script, each started on the disk the one before
    left behind; [hist] gathers their logs, newest entry first. *)
Fixpoint campaign (ss : list Session) (d : Disk) (hist : list Event)
  : Disk * list Event :=
  match ss with
  | [] => (d, hist)
  | s :: rest =>
      match runScraper (s_cfg s) (s_srv s) (s_fuel s) (s_now s) d with
      | Throw _ => campaign rest d hist
      | Return (_, w) => campaign rest (disk_of w) (log w ++ hist)
      end
  end.

(** The cursor a run started on disk [d] resumes project [p] from. *)
Definition disk_cursor (d : Disk) (p : string) : Z :=
  match disk_progress d with
  | Some (Document doc) => cursor_of doc p
  | _ => 0
  end.

(** ** Measures and invariants *)

(** The time an attempt spends waiting on the server's word before it
    throws: the armed [retryAfter] timer of the 429 branch. *)
Definition serverDelay (reply : Reply) : Z :=
  match axios_get (outcome reply) with
  | Return resp =>
      if status resp =? 429 then JS.timer_ms (retryAfter_of resp) else 0
  | Throw _ => 0
  end.

(** The pacing invariant: the GETs issued so far are at least the interval
    apart, and the newest one is not later than [lastRequestTime], which is
    not ahead of the clock. *)
Definition paced (w : World) : Prop :=
  spaced (get_times (log w))
  /\ match get_times (log w) with
     | [] => True
     | t :: _ => t <= lastRequestTime w /\ lastRequestTime w <= clock w
     end.

Ltac splits := repeat match goal with |- _ /\ _ => split end.

(** Did the call throw? *)
Definition is_throw {E A} (c : Completion E A) : bool :=
  match c with Throw _ => true | Return _ => false end.

(** The page a completed fetch hands over, if it returns. *)
Definition fetched_page (r : Completion Error Body) : list (list Issue) :=
  match r with
  | Return d => [issues_of d]
  | Throw _ => []
  end.

(** The locals once [page] has been taken in (the four updates after
    [if (issues.length === 0) break]). *)
Definition after_page (l : Locals) (page : list Issue) : Locals :=
  mkLocals (allIssues l ++ page)
           (startAt l + Z.of_nat (length page))
           (totalFetched l + Z.of_nat (length page)).

(** Entries that write no raw file. *)
Definition no_raw (e : Event) : Prop :=
  match e with
  | EvWriteRaw _ _ => False
  | _ => True
  end.

(** For project [q], memory and every snapshot written so far hold the
    cursor [c0] plus the number of records obtained. *)
Definition tracked (q : string) (c0 : Z) (w : World) : Prop :=
  cursor_of (progress w) q = c0 + Z.of_nat (length (received q (log w)))
  /\ cursor_tracks q c0 (log w).

(** progress.json holds what [progress] holds (an absent file counts as
    the empty object). *)
Definition coherent (w : World) : Prop :=
  progress_json w = Some (Document (progress w))
  \/ (progress_json w = None /\ progress w = ∅).

(** The cursors written for [p], oldest first. *)
Fixpoint saved_cursors (p : string) (evs : list Event) : list Z :=
  match evs with
  | [] => []
  | EvSaveProgress snap :: older => saved_cursors p older ++ [cursor_of snap p]
  | _ :: older => saved_cursors p older
  end.

(** ** Scenarios *)

Definition SPARK : string := "SPARK".
Definition KAFKA : string := "KAFKA".

(** A 200 reply carrying the [n] issues numbered from [from]. *)
Definition ok_page (from n : nat) : Reply :=
  mkReply 30 (HttpResponse
                (mkResponse 200 None (Some (mkBody (Some (seq from n)))))).

(** A process started on an empty disk. *)
Definition fresh : World := boot 1700000000000 (mkDisk None ∅) ∅.

(** 404 with the tracker's JSON error body (which has no [issues]). *)
Definition not_found : Server :=
  fun _ _ => mkReply 12 (HttpResponse (mkResponse 404 None (Some (mkBody None)))).

(** 404 with nothing in the body. *)
Definition not_found_bare : Server :=
  fun _ _ => mkReply 12 (HttpResponse (mkResponse 404 None None)).

(** 503 on every GET. *)
Definition unavailable : Server :=
  fun _ _ => mkReply 12 (HttpResponse (mkResponse 503 None None)).

(** One 429 asking for ten seconds, then pages of 50. *)
Definition throttled_once : Server :=
  fun n u =>
    match n with
    | O => mkReply 12 (HttpResponse (mkResponse 429 (Some "10"%string) None))
    | S _ => ok_page (Z.to_nat (url_startAt u)) 50
    end.

(** A tracker holding [total] issues, served in pages of at most 50. *)
Definition tracker (total : nat) : Server :=
  fun _ u =>
    let from := Z.to_nat (url_startAt u) in
    ok_page from (Nat.min 50 (total - from)).

(** A process resumed at cursor 50, the first 50 issues already on disk. *)
Definition resumed : World :=
  boot 1700000000000
       (mkDisk (Some (Document {[SPARK := 50]})) {[SPARK := seq 0 50]})
       {[SPARK := 50]}.

(** A tracker that never runs out: every page has 50 issues. *)
Definition endless : Server :=
  fun _ u => ok_page (Z.to_nat (url_startAt u)) 50.

(** SPARK is down (503 every time); every other project has 70 issues. *)
Definition spark_down : Server :=
  fun n u =>
    if String.eqb (url_project u) SPARK
    then unavailable n u
    else tracker 70 n u.

(** ** More ways to read a run *)

(** The errors a fetch can end with: what the [catch] block throws on. *)
Definition surfaced (e : Error) : Prop :=
  match e with
  | RateLimited | EmptyResponse => True
  | NetworkError c => is_network_code c = true
  | AxiosError c _ => is_network_code c = false
  | ServerError _ | SyntaxError => False
  end.

(** The backoff waits of [n] retries in a row, the first after attempt
    number [a]. *)
Fixpoint backoff_total (o : RetryOptions) (n a : nat) : Z :=
  match n with
  | O => 0
  | S n' => backoffDelay o a + backoff_total o n' (S a)
  end.

(** A service whose reply depends on the URL alone. *)
Definition stateless (srv : Server) : Prop :=
  forall n u, srv n u = srv 0%nat u.

(** A limit that never stops the loop ([null], or 0). *)
Definition unlimited (limit : option Z) : Prop :=
  forall t, limit_reached limit t = false.

(** The projects announced by [UI.section], oldest first. *)
Fixpoint sections (evs : list Event) : list string :=
  match evs with
  | [] => []
  | EvUI (MsgSection p) :: older => sections older ++ [p]
  | _ :: older => sections older
  end.

(** The pages that brought records, oldest first. *)
Definition nonempty_pages (p : string) (evs : list Event)
  : list (list Issue) :=
  filter (fun pg => pg <> []) (pages p evs).

(** The first [k] replies from the [n]-th on are refused by the [try]
    block. *)
Definition refused_run (srv : Server) (url : Url) (n k : nat) : Prop :=
  forall i, (i < k)%nat -> accepted (outcome (srv (n + i)%nat url)) = None.

(** ** The command line of the scraper *)

(** [args.indexOf(x)], with [None] for -1. *)
Fixpoint index_of (x : string) (args : list string) : option nat :=
  match args with
  | [] => None
  | a :: rest =>
      if String.eqb a x then Some 0%nat
      else S <$> index_of x rest
  end.

(** [args.includes(x)] *)
Definition includes (x : string) (args : list string) : bool :=
  existsb (fun a => String.eqb a x) args.

(** [s.split(",")] *)
Fixpoint split_comma (s : string) : list string :=
  match s with
  | EmptyString => [EmptyString]
  | String c r =>
      if Ascii.eqb c ","%char then EmptyString :: split_comma r
      else
        match split_comma r with
        | [] => [String c EmptyString]
        | h :: t => String c h :: t
        end
  end.

(** [names.join(",")] *)
Fixpoint join_comma (names : list string) : string :=
  match names with
  | [] => EmptyString
  | [n] => n
  | n :: rest => (n ++ String ","%char (join_comma rest))%string
  end.

Definition comma_free (s : string) : Prop :=
  forall c, In c (list_ascii_of_string s) -> c <> ","%char.

Definition DEFAULT_PROJECTS : list string := ["SPARK"; "KAFKA"; "HADOOP"]%string.

Definition is_Some_bool {A} (o : option A) : bool :=
  match o with Some _ => true | None => false end.

(** [i !== -1 ? args[i + 1] : undefined] *)
Definition arg_after (i : option nat) (args : list string) : option string :=
  match i with
  | Some n => nth_error args (S n)
  | None => None
  end.

(** The "Load configuration" lines at the top of the module.  [interactive]
    is what [getScrapeConfig()] returns.  [MAX_ISSUES] holds [None] both for
    [null] and for a [NaN] out of [parseInt]: the two are falsy alike in
    every test the scraper makes. *)
Definition loadConfig (args : list string) (interactive : Config) : Config :=
  let useInteractive := negb (includes "--no-interactive" args) in
  let projectArgIndex := index_of "--projects" args in
  let limitArgIndex := index_of "--limit" args in
  if useInteractive && negb (is_Some_bool projectArgIndex)
     && negb (is_Some_bool limitArgIndex)
  then mkConfig (PROJECTS interactive) (MAX_ISSUES interactive)
                (PER_PROJECT_LIMITS interactive)
  else
    let projects :=
      match arg_after projectArgIndex args with
      | Some v => if JS.truthy_string v then split_comma v
                  else DEFAULT_PROJECTS
      | None => DEFAULT_PROJECTS
      end in
    let max_issues :=
      match arg_after limitArgIndex args with
      | Some v => if JS.truthy_string v then JS.parseInt v else None
      | None => None
      end in
    mkConfig projects max_issues None.

(** ** The transformer: text cleaning

    Text is a list of UTF-16 code units, which is what [length],
    [substring] and a regular expression without the [u] flag work on. *)

Module Text.

(** What [\s] matches and [trim] removes. *)
Definition is_ws (c : Z) : bool :=
  ((9 <=? c) && (c <=? 13)) || (c =? 32) || (c =? 160) || (c =? 5760)
  || ((8192 <=? c) && (c <=? 8202)) || (c =? 8232) || (c =? 8233)
  || (c =? 8239) || (c =? 8287) || (c =? 12288) || (c =? 65279).

(** [\r] and [\n] *)
Definition is_nl (c : Z) : bool := (c =? 10) || (c =? 13).

(** Index of the first [ch] in [s]. *)
Fixpoint find (ch : Z) (s : list Z) : option nat :=
  match s with
  | [] => None
  | c :: r => if c =? ch then Some 0%nat else S <$> find ch r
  end.

(** Length of the longest prefix of [s] whose units satisfy [f]. *)
Fixpoint run (f : Z -> bool) (s : list Z) : nat :=
  match s with
  | c :: r => if f c then S (run f r) else 0%nat
  | [] => 0%nat
  end.

(** What a regular expression finds at the head of the text: the
    replacement and the number of units matched. *)
Definition Matcher : Type := list Z -> option (list Z * nat).

(** [s.replace(re, rep)] for a global [re] that matches no empty string:
    the matches are taken leftmost first and do not overlap, and what is
    put in is not looked at again.  Each step moves on by at least one
    unit, so [length s] steps are enough. *)
Fixpoint replace_all (m : Matcher) (fuel : nat) (s : list Z) : list Z :=
  match fuel with
  | O => s
  | S fuel' =>
      match s with
      | [] => []
      | c :: r =>
          match m s with
          | Some (rep, n) => rep ++ replace_all m fuel' (drop n s)
          | None => c :: replace_all m fuel' r
          end
      end
  end.

Definition replace_g (m : Matcher) (s : list Z) : list Z :=
  replace_all m (length s) s.

(** /<[^>]+>/ with " ": a '<', one unit or more that are not '>', and the
    first '>' after them. *)
Definition tag : Matcher :=
  fun s =>
    match s with
    | c :: rest =>
        if c =? 60 then
          match find 62 rest with
          | Some (S j) => Some ([32], S (S (S j)))
          | _ => None
          end
        else None
    | [] => None
    end.

(** /\[~([^\]]+)\]/ with "$1" *)
Definition mention : Matcher :=
  fun s =>
    match s with
    | c1 :: c2 :: rest =>
        if (c1 =? 91) && (c2 =? 126) then
          match find 93 rest with
          | Some (S j) => Some (take (S j) rest, S (S (S (S j))))
          | _ => None
          end
        else None
    | _ => None
    end.

(** The second group when [content] splits as group 1, '|', group 2 with
    both groups non-empty and group 1 as long as can be: what follows the
    last '|' that is neither the first unit nor the last. *)
Fixpoint second_group (inside : bool) (content : list Z) : option (list Z) :=
  match content with
  | [] => None
  | c :: r =>
      match second_group true r with
      | Some g2 => Some g2
      | None =>
          if inside && (c =? 124) && negb (bool_decide (r = []))
          then Some r else None
      end
  end.

(** /\[([^\]]+)\|([^\]]+)\]/ with "$2": the groups lie between the '[' and
    the first ']' after it, since neither can hold a ']'. *)
Definition link : Matcher :=
  fun s =>
    match s with
    | c :: rest =>
        if c =? 91 then
          match find 93 rest with
          | Some j =>
              match second_group false (take j rest) with
              | Some g2 => Some (g2, S (S j))
              | None => None
              end
          | None => None
          end
        else None
    | [] => None
    end.

(** /[\r\n]+/ with " " *)
Definition newlines : Matcher :=
  fun s =>
    match run is_nl s with
    | O => None
    | n => Some ([32], n)
    end.

(** /\s{2,}/ with " " *)
Definition spaces : Matcher :=
  fun s =>
    match run is_ws s with
    | S (S n) => Some ([32], S (S n))
    | _ => None
    end.

Fixpoint trim_start (s : list Z) : list Z :=
  match s with
  | c :: r => if is_ws c then trim_start r else s
  | [] => []
  end.

Fixpoint trim_end (s : list Z) : list Z :=
  match s with
  | [] => []
  | c :: r =>
      match trim_end r with
      | [] => if is_ws c then [] else [c]
      | r' => c :: r'
      end
  end.

(** [s.trim()] *)
Definition trim (s : list Z) : list Z := trim_end (trim_start s).

(** [cleanText]; [None] is an absent field, and the empty string is falsy
    like it. *)
Definition cleanText (text : option (list Z)) : list Z :=
  match text with
  | None => []
  | Some [] => []
  | Some s =>
      trim (replace_g spaces
             (replace_g newlines
               (replace_g link
                 (replace_g mention
                   (replace_g tag s)))))
  end.

(** No two units of white space side by side. *)
Fixpoint no_ws_pair (s : list Z) : Prop :=
  match s with
  | a :: ((b :: _) as r) => is_ws a && is_ws b = false /\ no_ws_pair r
  | _ => True
  end.

(** Text that none of the five expressions finds anything in and that
    [trim] leaves alone. *)
Definition plain (s : list Z) : Prop :=
  Forall (fun c => c <> 60 /\ c <> 91 /\ is_nl c = false) s
  /\ no_ws_pair s
  /\ (forall c, head s = Some c -> is_ws c = false)
  /\ (forall c, last s = Some c -> is_ws c = false).

(** The units of a literal. *)
Definition units (s : string) : list Z :=
  map (fun a => Z.of_nat (nat_of_ascii a)) (list_ascii_of_string s).

(** Every match covers at least one unit, lies within the text, and is
    replaced by no more than it covers. *)
Definition shrinking (m : Matcher) : Prop :=
  forall s rep n,
    m s = Some (rep, n) ->
    (length rep <= n)%nat /\ (1 <= n <= length s)%nat.

End Text.

(** ** The transformer: issues, tasks and the output file *)

Module Transformer.

Import Text.

#[local] Set Warnings "-register-all".

(** A JSON value as the transformer builds it; an object keeps its keys in
    the order they were set. *)
Inductive Json : Type :=
| JUndefined
| JNull
| JText (t : list Z)
| JNum (n : Z)
| JList (l : list Json)
| JObj (fields : list (string * Json)).

Definition Obj : Type := list (string * Json).

Fixpoint get (k : string) (o : Obj) : option Json :=
  match o with
  | [] => None
  | (k', v) :: rest => if String.eqb k' k then Some v else get k rest
  end.

(** Assignment to a key: in place when the key is there, at the end when
    it is new. *)
Fixpoint set_key (k : string) (v : Json) (o : Obj) : Obj :=
  match o with
  | [] => [(k, v)]
  | (k', v') :: rest =>
      if String.eqb k' k then (k, v) :: rest
      else (k', v') :: set_key k v rest
  end.

(** [{ ...a, ...b }] *)
Definition spread (a b : Obj) : Obj :=
  fold_left (fun acc kv => set_key (fst kv) (snd kv) acc) b a.

(** An optional string field as a value. *)
Definition opt_text (o : option (list Z)) : Json :=
  match o with
  | Some t => JText t
  | None => JUndefined
  end.

(** [x || d] on an optional string: the empty string is falsy. *)
Definition or_default (o : option (list Z)) (d : list Z) : list Z :=
  match o with
  | Some (c :: r) => c :: r
  | _ => d
  end.

(** [parts.join(sep)] *)
Fixpoint join (sep : list Z) (parts : list (list Z)) : list Z :=
  match parts with
  | [] => []
  | [p] => p
  | p :: rest => p ++ sep ++ join sep rest
  end.

Record Person : Type := mkPerson {
  displayName : list Z;
  emailAddress : option (list Z);
  accountId : option (list Z)
}.

Record Visibility : Type := mkVisibility {
  v_type : list Z;
  v_value : list Z
}.

(** One entry of [fields.comment.comments].  [c_updateAuthor] is [None]
    both for a missing and for a [null] field, which the code does not tell
    apart. *)
Record Comment : Type := mkComment {
  c_id : option (list Z);
  c_body : list Z;
  c_author : option Person;
  c_created : option (list Z);
  c_updated : option (list Z);
  c_updateAuthor : option Person;
  c_visibility : option Visibility
}.

Record Project : Type := mkProject { p_key : list Z; p_name : list Z }.

(** [issue.fields], each nested object by the one member that is read:
    [status], [priority], [issuetype] and [resolution] by their [name],
    [components] by their names, [comments] for [comment?.comments]. *)
Record Fields : Type := mkFields {
  summary : option (list Z);
  description : option (list Z);
  status : option (list Z);
  priority : option (list Z);
  assignee : option Person;
  reporter : option Person;
  project : option Project;
  issuetype : option (list Z);
  created : option (list Z);
  updated : option (list Z);
  resolutiondate : option (list Z);
  resolution : option (list Z);
  labels : option (list (list Z));
  components : option (list (list Z));
  comments : option (list Comment)
}.

Record JiraIssue : Type := mkIssue {
  id : list Z;
  key : list Z;
  fields : Fields
}.

Definition isQualityIssue (issue : JiraIssue) : bool :=
  let f := fields issue in
  let hasTitle :=
    match summary f with
    | Some s => (10 <? length (trim s))%nat
    | None => false
    end in
  let hasContent :=
    match description f with
    | Some d => (20 <? length (trim d))%nat
    | None => false
    end
    || match comments f with
       | Some cs => (0 <? length cs)%nat
       | None => false
       end in
  hasTitle && hasContent.

Record Task : Type := mkTask {
  task_type : string;
  instruction : string;
  input : list Z;
  output : list Z;
  metadata : Obj
}.

Definition Unknown : list Z := units "Unknown".
Definition Anonymous : list Z := units "Anonymous".
Definition NLNL : list Z := [10; 10].

(** The entries of the local [comments] of [generateTrainingTasks], by
    the one member that is read again: the cleaned [body]. *)
Definition comment_bodies (f : Fields) : list (list Z) :=
  match comments f with
  | Some cs => map (fun c => cleanText (Some (c_body c))) cs
  | None => []
  end.

(** One line of the conversation: [`${c.role}: ${c.content}`]. *)
Definition conversation_line (i : nat) (body : list Z) : list Z :=
  (match i with O => units "user" | S _ => units "assistant" end)
    ++ units ": " ++ take 300 body.

Definition text_eqb (a b : list Z) : bool := bool_decide (a = b).

Definition generateTrainingTasks (issue : JiraIssue) : list Task :=
  let f := fields issue in
  let title := cleanText (summary f) in
  let description := cleanText (description f) in
  let status := or_default (status f) Unknown in
  let priority := or_default (priority f) Unknown in
  let project := or_default (p_key <$> project f) Unknown in
  let bodies := comment_bodies f in
  let base := [("issue_id", JText (key issue)); ("project", JText project)]%string in
  let brief := title ++ NLNL ++ take 500 description in
  (if (50 <? length description)%nat
   then [mkTask "summarization"
                "Summarize the following technical issue in 2-3 sentences:"
                (title ++ NLNL ++ description) title
                (base ++ [("status", JText status)]%string)]
   else [])
  ++ [mkTask "classification"
             "Classify the status of this issue based on its description:"
             brief status
             (base ++ [("status", JText status)]%string)]
  ++ (if negb (text_eqb priority Unknown)
      then [mkTask "priority_classification"
                   "Determine the priority level of this issue:"
                   brief priority
                   (base ++ [("priority", JText priority)]%string)]
      else [])
  ++ [mkTask "question_answering"
             "Answer the following question about this issue:"
             (units "What is the main problem described in this issue?"
                ++ NLNL ++ units "Issue: " ++ title ++ NLNL
                ++ take 500 description)
             (take 300 description) base]
  ++ (match resolution f with
      | Some (c :: r) =>
          [mkTask "resolution_prediction"
                  "Based on the issue description, predict if it would be resolved:"
                  brief (c :: r)
                  (base ++ [("resolution", JText (c :: r))]%string)]
      | _ => []
      end)
  ++ (if (0 <? length bodies)%nat
      then
        match bodies !! (length bodies - 1)%nat with
        | Some lastComment =>
            [mkTask "conversation"
                    "Continue the conversation about this technical issue:"
                    (title ++ NLNL ++ take 200 description ++ NLNL
                       ++ units "Conversation:" ++ [10]
                       ++ join [10] (imap conversation_line (take 5 bodies)))
                    (take 300 lastComment)
                    (base ++ [("comment_count",
                               JNum (Z.of_nat (length bodies)))]%string)]
        | None => []
        end
      else [])
  ++ (if (100 <? length description)%nat
      then [mkTask "extraction"
                   "Extract key technical details from this issue:"
                   (take 800 description) title base]
      else []).

(** The seven kinds of task, in the order they are pushed. *)
Definition TASK_TYPES : list string :=
  ["summarization"; "classification"; "priority_classification";
   "question_answering"; "resolution_prediction"; "conversation";
   "extraction"]%string.

(** [s.endsWith(suf)] *)
Definition ends_with (suf s : list Z) : bool :=
  (length suf <=? length s)%nat
  && text_eqb (drop (length s - length suf) s) suf.

(** [s.replace(pat, "")] for a string pattern: the first occurrence only. *)
Fixpoint remove_first (pat s : list Z) : list Z :=
  match s with
  | [] => []
  | c :: rest =>
      if text_eqb (take (length pat) s) pat then drop (length pat) s
      else c :: remove_first pat rest
  end.

Definition DOT_JSON : list Z := units ".json".

Definition person_json (p : Person) : Json :=
  JObj [("displayName", JText (displayName p));
        ("emailAddress", opt_text (emailAddress p));
        ("accountId", opt_text (accountId p))]%string.

(** One entry of the [comments] of [transform]. *)
Definition comment_json (c : Comment) : Json :=
  JObj [("id", opt_text (c_id c));
        ("author",
         JObj [("displayName",
                JText (or_default (displayName <$> c_author c) Anonymous));
               ("emailAddress", opt_text (c_author c ≫= emailAddress));
               ("accountId", opt_text (c_author c ≫= accountId))]%string);
        ("body", JText (cleanText (Some (c_body c))));
        ("body_raw", JText (c_body c));
        ("created", opt_text (c_created c));
        ("updated", opt_text (c_updated c));
        ("updateAuthor",
         match c_updateAuthor c with
         | Some p => person_json p
         | None => JNull
         end);
        ("visibility",
         match c_visibility c with
         | Some v => JObj [("type", JText (v_type v));
                           ("value", JText (v_value v))]%string
         | None => JUndefined
         end)]%string.

(** The [metadata] that [transform] builds for an issue of [file]. *)
Definition issue_metadata (file : list Z) (issue : JiraIssue) : Obj :=
  let f := fields issue in
  let comments :=
    match comments f with
    | Some cs => map comment_json cs
    | None => []
    end in
  [("issue_id", JText (or_default (Some (key issue)) (id issue)));
   ("project",
    JText (or_default (p_key <$> project f) (remove_first DOT_JSON file)));
   ("project_name", opt_text (p_name <$> project f));
   ("issue_type", opt_text (issuetype f));
   ("status", JText (or_default (status f) Unknown));
   ("priority", opt_text (priority f));
   ("assignee",
    match assignee f with
    | Some p => person_json p
    | None => JNull
    end);
   ("reporter",
    match reporter f with
    | Some p =>
        JObj [("displayName",
               JText (or_default (Some (displayName p)) Anonymous));
              ("emailAddress", opt_text (emailAddress p));
              ("accountId", opt_text (accountId p))]%string
    | None => JObj [("displayName", JText Anonymous)]%string
    end);
   ("created", opt_text (created f));
   ("updated", opt_text (updated f));
   ("resolved", opt_text (resolutiondate f));
   ("resolution", opt_text (resolution f));
   ("labels", JList (map JText (default [] (labels f))));
   ("components", JList (map JText (default [] (components f))));
   ("comment_count", JNum (Z.of_nat (length comments)));
   ("comments", JList comments)]%string.

(** [{ ...task, metadata: { ...metadata, ...task.metadata } }] *)
Definition item_of (meta : Obj) (task : Task) : Task :=
  mkTask (task_type task) (instruction task) (input task) (output task)
         (spread meta (metadata task)).

(** What [transform] has done so far: the items given to the writer, oldest
    first, and its three counters. *)
Record Tally : Type := mkTally {
  written : list Task;
  totalIssues : nat;
  totalTasks : nat;
  skippedLowQuality : nat
}.

Definition write_task (meta : Obj) (t : Tally) (task : Task) : Tally :=
  mkTally (written t ++ [item_of meta task]) (totalIssues t)
          (S (totalTasks t)) (skippedLowQuality t).

(** The body of the loop over the issues of one file. *)
Definition process_issue (file : list Z) (t : Tally) (issue : JiraIssue)
  : Tally :=
  if negb (isQualityIssue issue)
  then mkTally (written t) (totalIssues t) (totalTasks t)
               (S (skippedLowQuality t))
  else
    let t' := fold_left (write_task (issue_metadata file issue))
                        (generateTrainingTasks issue) t in
    mkTally (written t') (S (totalIssues t')) (totalTasks t')
            (skippedLowQuality t').

(** What [JSON.parse] gave for a raw file: an array of issues, or an object
    with or without an array [issues]. *)
Inductive RawData : Type :=
| RawArray (issues : list JiraIssue)
| RawObject (issues : option (list JiraIssue)).

(** [rawData.issues || rawData], when it can be iterated. *)
Definition issues_in (rawData : RawData) : option (list JiraIssue) :=
  match rawData with
  | RawArray l => Some l
  | RawObject (Some l) => Some l
  | RawObject None => None
  end.

(** The raw directory: the names [readdirSync] lists, each with what its
    file parses to, [None] when reading or parsing throws. *)
Definition RawDir : Type := list (list Z * option RawData).

Fixpoint process_files (files : RawDir) (t : Tally) : option Tally :=
  match files with
  | [] => Some t
  | (file, content) :: rest =>
      match content ≫= issues_in with
      | Some issues =>
          process_files rest (fold_left (process_issue file) issues t)
      | None => None
      end
  end.

Inductive TransformResult : Type :=
| NoRawData
| NoFiles
| Failed
| Complete (t : Tally).

(** [transform], with [None] for a raw directory that does not exist. *)
Definition transform (raw : option RawDir) : TransformResult :=
  match raw with
  | None => NoRawData
  | Some dir =>
      let files := filter (fun f => ends_with DOT_JSON f.1 = true) dir in
      if (length files =? 0)%nat then NoFiles
      else
        match process_files files (mkTally [] 0 0 0) with
        | Some t => Complete t
        | None => Failed
        end
  end.

(** The items [transform] writes for one issue of [file]. *)
Definition items_of (fi : list Z * JiraIssue) : list Task :=
  map (item_of (issue_metadata fi.1 fi.2)) (generateTrainingTasks fi.2).

(** The issues of the raw files, each with the name of its file, in the
    order [transform] meets them. *)
Definition read_issues (dir : RawDir) : list (list Z * JiraIssue) :=
  flat_map (fun fc => map (pair fc.1) (default [] (fc.2 ≫= issues_in)))
           (filter (fun f => ends_with DOT_JSON f.1 = true) dir).

Definition quality (fi : list Z * JiraIssue) : Prop :=
  isQualityIssue fi.2 = true.

#[global] Instance quality_dec fi : Decision (quality fi) :=
  decide (isQualityIssue fi.2 = true).

(** The two entries every task's metadata starts with. *)
Definition base_of (issue : JiraIssue) : Obj :=
  [("issue_id", JText (key issue));
   ("project",
    JText (or_default (p_key <$> project (fields issue)) Unknown))]%string.

(** What [transform] asks of an item's metadata: the key of the issue and
    the key of its project. *)
Definition names (issue : JiraIssue) (item : Task) : Prop :=
  get "issue_id" (metadata item) = Some (JText (key issue))
  /\ get "project" (metadata item)
     = Some (JText (or_default (p_key <$> project (fields issue)) Unknown)).

(** A raw file [KAFKA.json] with one issue that has an id but an empty key
    and no project, and comments but no description. *)
Definition keyless : JiraIssue :=
  mkIssue (units "12345") []
    (mkFields (Some (units "Shuffle fails on large joins"))
              None (Some (units "Open")) None None None None
              None None None None None None None
              (Some [mkComment None (units "Seen on 3.1 too") None None None
                               None None])).

Definition kafka_dir : RawDir :=
  [(units "KAFKA.json", Some (RawObject (Some [keyless])));
   (units "notes.txt", None)].

(** Case analysis on the tests of [generateTrainingTasks]. *)
Ltac task_cases :=
  unfold generateTrainingTasks; cbv zeta;
  repeat match goal with
         | |- context [if ?c then _ else _] => destruct c eqn:?
         | |- context [match ?x with _ => _ end] => destruct x eqn:?
         end;
  repeat match goal with
         | H : (_ <? _)%nat = true |- _ => apply Nat.ltb_lt in H
         | H : (_ <? _)%nat = false |- _ => apply Nat.ltb_ge in H
         end;
  try lia.

End Transformer.

(** A 429 whose retry-after is an HTTP date. *)
Definition throttled_until_date : Reply :=
  mkReply 12 (HttpResponse
                (mkResponse 429 (Some "Wed, 21 Oct 2026 07:28:00 GMT"%string)
                            None)).

(** ** The fetcher: frame, log and timing *)

Example parseInt_reads_a_decimal_prefix :
  JS.parseInt " 120 "%string = Some 120
  /\ JS.parseInt "12abc"%string = Some 12
  /\ JS.parseInt "-7"%string = Some (-7)
  /\ JS.parseInt "abc"%string = None
  /\ JS.parseInt ""%string = None.
Proof. vm_compute. repeat split; reflexivity. Qed.

Example timer_ms_arms_at_least_one_ms :
  JS.timer_ms (Some 2000) = 2000
  /\ JS.timer_ms (Some 0) = 1
  /\ JS.timer_ms (Some (-5)) = 1
  /\ JS.timer_ms None = 1.
Proof. vm_compute. repeat split; reflexivity. Qed.

Lemma pages_app p new old :
  pages p (new ++ old) = pages p old ++ pages p new.
Proof.
  induction new as [|e new IH]; simpl.
  - by rewrite app_nil_r.
  - rewrite IH. by rewrite app_assoc.
Qed.

Lemma pages_no_get p new :
  Forall no_get new -> pages p new = [].
Proof.
  induction 1 as [|e new He _ IH]; simpl; [done|].
  rewrite IH. by destruct e.
Qed.

Lemma received_app p new old :
  received p (new ++ old) = received p old ++ received p new.
Proof. unfold received. by rewrite pages_app, concat_app. Qed.

Lemma get_times_app new old :
  get_times (new ++ old) = get_times new ++ get_times old.
Proof.
  induction new as [|e new IH]; simpl; [done|].
  destruct e; simpl; by rewrite IH.
Qed.

Lemma no_store_no_save evs : Forall no_store evs -> Forall no_save evs.
Proof. induction 1 as [|e evs He _ IH]; constructor; [by destruct e|done]. Qed.

Lemma cursor_tracks_app p c0 new old :
  Forall no_save new -> cursor_tracks p c0 old ->
  cursor_tracks p c0 (new ++ old).
Proof.
  induction 1 as [|e new He _ IH]; simpl; [done|].
  intros Hold. split; [by destruct e | by apply IH].
Qed.

Lemma timer_ms_id n :
  1 <= n <= JS.TIMEOUT_MAX -> JS.timer_ms (Some n) = n.
Proof.
  intros [H1 H2]. unfold JS.timer_ms.
  destruct (Z.leb_spec 1 n), (Z.leb_spec n JS.TIMEOUT_MAX); simpl; lia.
Qed.

Lemma timer_ms_pos ms : 1 <= JS.timer_ms ms.
Proof.
  unfold JS.timer_ms. destruct ms as [n|]; [|lia].
  destruct (Z.leb_spec 1 n), (Z.leb_spec n JS.TIMEOUT_MAX); simpl; lia.
Qed.

Lemma backoffDelay_eq k :
  backoffDelay retry_options k = Z.min (2000 * 2 ^ Z.of_nat (k - 1)) 60000.
Proof. reflexivity. Qed.

Lemma backoffDelay_bounds k :
  2000 <= backoffDelay retry_options k <= 60000.
Proof.
  rewrite backoffDelay_eq.
  assert (1 <= 2 ^ Z.of_nat (k - 1)) by (apply Z.pow_le_mono_r with (b := 0); lia).
  lia.
Qed.

Lemma timer_backoff k :
  JS.timer_ms (Some (backoffDelay retry_options k))
  = backoffDelay retry_options k.
Proof.
  apply timer_ms_id. pose proof (backoffDelay_bounds k).
  unfold JS.TIMEOUT_MAX. lia.
Qed.

(** What one pass through the rate limiter leaves behind. *)
Lemma rateLimit_spec w :
  let w1 := rateLimit w in
  progress w1 = progress w /\ progress_json w1 = progress_json w
  /\ raw_dir w1 = raw_dir w /\ requests w1 = requests w
  /\ lastRequestTime w1 = clock w1 /\ clock w <= clock w1
  /\ (lastRequestTime w <= clock w ->
      lastRequestTime w + MIN_REQUEST_INTERVAL <= clock w1)
  /\ (MIN_REQUEST_INTERVAL <= clock w - lastRequestTime w -> w1 = set_lastRequestTime (clock w) w)
  /\ exists new, log w1 = new ++ log w /\ Forall no_get new /\ Forall no_store new.
Proof.
  unfold rateLimit, MIN_REQUEST_INTERVAL.
  destruct (Z.ltb_spec (clock w - lastRequestTime w) 200) as [Hlt|Hge]; simpl.
  - pose proof (timer_ms_pos (Some (200 - (clock w - lastRequestTime w)))) as Hpos.
    repeat split; try lia.
    + intros Hle. rewrite timer_ms_id; [lia|]. unfold JS.TIMEOUT_MAX. lia.
    + eexists [_]. simpl. repeat split; repeat constructor.
  - repeat split; try lia.
    exists []. by repeat split.
Qed.

Lemma try_block_spec reply w r w1 :
  try_block reply w = (r, w1) ->
  progress w1 = progress w /\ progress_json w1 = progress_json w
  /\ raw_dir w1 = raw_dir w /\ requests w1 = requests w
  /\ lastRequestTime w1 = lastRequestTime w
  /\ clock w1 = clock w + serverDelay reply
  /\ (exists post, log w1 = post ++ log w
                   /\ Forall no_get post /\ Forall no_store post)
  /\ match accepted (outcome reply) with
     | Some d => r = Return d
     | None => exists e, r = Throw e
     end.
Proof.
  unfold try_block, serverDelay, accepted.
  destruct (axios_get (outcome reply)) as [resp|e].
  - destruct (status resp =? 429) eqn:E429; simpl.
    + intros [= <- <-]. simpl. repeat split; eauto.
      eexists [_; _]. simpl. repeat split; repeat constructor.
    + destruct (500 <=? status resp) eqn:E500; simpl.
      * intros [= <- <-]. repeat split; eauto; try lia.
        exists []. by repeat split.
      * destruct (data resp) as [d|]; intros [= <- <-];
          (repeat split; eauto; try lia; exists []; by repeat split).
  - intros [= <- <-]. repeat split; eauto; try lia.
    exists []. by repeat split.
Qed.

Lemma attempt_spec srv url w r w1 :
  attempt srv url w = (r, w1) ->
  let reply := srv (requests w) url in
  let g := clock (rateLimit w) in
  progress w1 = progress w /\ progress_json w1 = progress_json w
  /\ raw_dir w1 = raw_dir w /\ requests w1 = S (requests w)
  /\ lastRequestTime w1 = g
  /\ clock w1 = g + Z.of_nat (latency reply) + serverDelay reply
  /\ (lastRequestTime w <= clock w ->
      lastRequestTime w + MIN_REQUEST_INTERVAL <= g)
  /\ (exists pre post,
        log w1 = post ++ EvGet g url reply :: pre ++ log w
        /\ Forall no_get pre /\ Forall no_store pre
        /\ Forall no_get post /\ Forall no_store post)
  /\ match accepted (outcome reply) with
     | Some d => r = Return d
     | None => exists e, r = Throw e
     end.
Proof.
  unfold attempt.
  destruct (rateLimit_spec w)
    as (Hp & Hj & Hr & Hq & Hl & Hc & Hgap & _ & pre & Hlog & Hpre1 & Hpre2).
  rewrite Hq.
  set (reply := srv (requests w) url).
  destruct (try_block reply (send url reply (rateLimit w))) as [r0 w3] eqn:Htry.
  apply try_block_spec in Htry
    as (Tp & Tj & Tr & Tq & Tl & Tc & (post & Tlog & Tpost1 & Tpost2) & Tres).
  simpl in *.
  intros Heq.
  assert (w3 = w1 /\
          match accepted (outcome reply) with
          | Some d => r = Return d
          | None => exists e, r = Throw e
          end) as [-> Hres].
  { destruct r0 as [d|e]; injection Heq as <- <-; split; auto.
    destruct (accepted (outcome reply)); [done|]. eauto. }
  split; [congruence|]. split; [congruence|]. split; [congruence|].
  split; [congruence|]. split; [congruence|]. split; [lia|].
  split; [exact Hgap|]. split; [|exact Hres].
  exists pre, post. rewrite Tlog. simpl. rewrite Hlog. by repeat split.
Qed.

Lemma serverDelay_nonneg reply : 0 <= serverDelay reply.
Proof.
  unfold serverDelay. destruct (axios_get (outcome reply)) as [resp|]; [|lia].
  destruct (status resp =? 429); [|lia].
  pose proof (timer_ms_pos (retryAfter_of resp)). lia.
Qed.

Lemma get_times_no_get evs : Forall no_get evs -> get_times evs = [].
Proof.
  induction 1 as [|e evs He _ IH]; simpl; [done|]. by destruct e.
Qed.

Lemma get_times_attempt pre post g url reply old :
  Forall no_get pre -> Forall no_get post ->
  get_times (post ++ EvGet g url reply :: pre ++ old) = g :: get_times old.
Proof.
  intros Hpre Hpost. rewrite get_times_app. simpl. rewrite get_times_app.
  by rewrite (get_times_no_get pre), (get_times_no_get post).
Qed.

Lemma pages_attempt p pre post g url reply :
  Forall no_get pre -> Forall no_get post ->
  pages p (post ++ EvGet g url reply :: pre)
  = option_list (page_for p (EvGet g url reply)).
Proof.
  intros Hpre Hpost.
  change (EvGet g url reply :: pre) with ([EvGet g url reply] ++ pre).
  rewrite !pages_app. cbn [pages].
  by rewrite (pages_no_get p pre), (pages_no_get p post), app_nil_r.
Qed.

Lemma paced_attempt srv url w r w1 :
  attempt srv url w = (r, w1) -> paced w -> paced w1.
Proof.
  intros Ha [Hsp Hlast].
  apply attempt_spec in Ha
    as (_ & _ & _ & _ & Hl & Hc & Hgap & (pre & post & Hlog & Hpre & _ & Hpost & _) & _).
  unfold paced. rewrite Hlog, get_times_attempt by done.
  pose proof (serverDelay_nonneg (srv (requests w) url)).
  split; [|lia].
  destruct (get_times (log w)) as [|t ts]; cbn [spaced]; [done|].
  split; [|done]. destruct Hlast as [Ht Hle]. specialize (Hgap Hle).
  unfold MIN_REQUEST_INTERVAL in *. lia.
Qed.

(** Steps that issue no request and only let time pass keep the pace. *)
Lemma paced_quiet w w' new :
  log w' = new ++ log w -> Forall no_get new ->
  lastRequestTime w' = lastRequestTime w -> clock w <= clock w' ->
  paced w -> paced w'.
Proof.
  intros Hlog Hnew Hl Hc [Hsp Hlast]. unfold paced.
  rewrite Hlog, get_times_app, (get_times_no_get new) by done. simpl.
  split; [done|]. destruct (get_times (log w)); [done|]. lia.
Qed.

Lemma pRetry_from_spec srv url n k w r w1 :
  pRetry_from retry_options (attempt srv url) n k w = (r, w1) ->
  progress w1 = progress w /\ progress_json w1 = progress_json w
  /\ raw_dir w1 = raw_dir w
  /\ (requests w < requests w1 <= requests w + n + 1)%nat
  /\ (is_throw r = true -> requests w1 = (requests w + n + 1)%nat)
  /\ (exists new,
        log w1 = new ++ log w /\ Forall no_store new
        /\ forall p, pages p new
                     = if String.eqb (url_project url) p
                       then fetched_page r else [])
  /\ (paced w -> paced w1)
  /\ (forall d, r = Return d ->
      exists n, accepted (outcome (srv n url)) = Some d).
Proof.
  revert k w. induction n as [|n IH]; intros k w; simpl;
    destruct (attempt srv url w) as [r0 w0] eqn:Ha;
    pose proof (paced_attempt _ _ _ _ _ Ha) as Hpaced;
    apply attempt_spec in Ha
      as (Hp & Hj & Hr & Hq & Hl & Hc & _
          & (pre & post & Hlog & Hpre1 & Hpre2 & Hpost1 & Hpost2) & Hres);
    simpl in Hres;
    set (evs := post ++ EvGet (clock (rateLimit w)) url
                              (srv (requests w) url) :: pre);
    assert (Hlog' : log w0 = evs ++ log w)
      by (subst evs; rewrite Hlog, <- app_assoc; done);
    assert (Hrecv : forall p,
             pages p evs
             = if String.eqb (url_project url) p
               then option_list (issues_of <$>
                      accepted (outcome (srv (requests w) url)))
               else [])
      by (intros p; subst evs; rewrite pages_attempt by done; simpl;
          by destruct (String.eqb _ _));
    assert (Hns : Forall no_store evs)
      by (subst evs; apply Forall_app; split; [done|]; by constructor);
    clearbody evs; clear Hlog;
    destruct (accepted _) as [d'|] eqn:Hacc;
    destruct r0 as [d|e]; try (by destruct Hres); try done;
    try (injection Hres as ->).
  - (* no retry left, the attempt returns *)
    intros [= <- <-]. splits; try done; try lia.
    + exists evs. splits; [done|done|].
      intros p. rewrite Hrecv. by destruct (String.eqb _ _).
    + intros d0 [= <-]. eauto.
  - (* no retry left, the attempt throws *)
    intros [= <- <-]. unfold onFailedAttempt, ui, record. simpl.
    splits; try done; try lia.
    exists (EvUI (MsgAttemptFailed k 0) :: evs). rewrite Hlog'.
    splits; [done|by constructor|].
    intros p. simpl. rewrite Hrecv, app_nil_r. by destruct (String.eqb _ _).
  - (* retries left, the attempt returns *)
    intros [= <- <-]. splits; try done; try lia.
    + exists evs. splits; [done|done|].
      intros p. rewrite Hrecv. by destruct (String.eqb _ _).
    + intros d0 [= <-]. eauto.
  - (* retries left, the attempt throws *)
    intros Hrec.
    apply IH in Hrec
      as (Ip & Ij & Ir & Iq & Ithrow & (new & Ilog & Ins & Irecv) & Ipaced
          & Isrc).
    simpl in *.
    splits; try congruence; try lia; try exact Isrc.
    + intros Ht. specialize (Ithrow Ht). lia.
    + exists (new ++ EvSleep (JS.timer_ms (Some (backoffDelay retry_options k)))
                  :: EvUI (MsgAttemptFailed k (S n)) :: evs).
      rewrite Ilog, Hlog', <- !app_assoc. simpl. splits; [done| |].
      { apply Forall_app. split; [done|]. by repeat constructor. }
      intros p. rewrite pages_app. simpl.
      rewrite Hrecv, !app_nil_r, Irecv. by destruct (String.eqb _ _).
    + intros Hw. apply Ipaced. apply Hpaced in Hw.
      pose proof (timer_ms_pos (Some (backoffDelay retry_options k))).
      destruct Hw as [Hs Hm]. split; simpl; [done|].
      destruct (get_times (log w0)); [done|]. lia.
Qed.

Lemma fetchPageWithRetry_spec srv url w r w1 :
  fetchPageWithRetry srv url w = (r, w1) ->
  progress w1 = progress w /\ progress_json w1 = progress_json w
  /\ raw_dir w1 = raw_dir w
  /\ (requests w < requests w1 <= requests w + 6)%nat
  /\ (is_throw r = true -> requests w1 = (requests w + 6)%nat)
  /\ (exists new,
        log w1 = new ++ log w /\ Forall no_store new
        /\ forall p, pages p new
                     = if String.eqb (url_project url) p
                       then fetched_page r else [])
  /\ (paced w -> paced w1)
  /\ (forall d, r = Return d ->
      exists n, accepted (outcome (srv n url)) = Some d).
Proof.
  unfold fetchPageWithRetry, pRetry. intros H.
  apply pRetry_from_spec in H. cbn [retries retry_options] in H.
  replace (requests w + 5 + 1)%nat with (requests w + 6)%nat in H by lia.
  exact H.
Qed.

(** ** The pagination loop, case by case *)

Section Loop.

Variables (srv : Server) (p : string) (limit : option Z).

Let fetch (l : Locals) (w : World) :=
  fetchPageWithRetry srv (mkUrl p (startAt l)) w.

(** Every way the loop can run, as an induction scheme: the five ways out
    of an iteration and the one way on to the next. *)
Lemma scrapeLoop_cases
    (P : Locals -> World -> LoopExit -> Locals -> World -> Prop) :
  (forall l w, P l w Interrupted l w) ->
  (forall l w,
      limit_reached limit (totalFetched l) = true ->
      P l w (Stop LimitReached) l w) ->
  (forall l w e w1,
      limit_reached limit (totalFetched l) = false ->
      fetch l w = (Throw e, w1) ->
      P l w (Stop FetchFailed) l (ui (MsgFetchFailed (startAt l) e) w1)) ->
  (forall l w d w1,
      limit_reached limit (totalFetched l) = false ->
      fetch l w = (Return d, w1) ->
      issues_of d = [] ->
      P l w (Stop Exhausted) l w1) ->
  (forall l w d w1,
      limit_reached limit (totalFetched l) = false ->
      fetch l w = (Return d, w1) ->
      issues_of d <> [] ->
      let l' := after_page l (issues_of d) in
      limit_reached limit (totalFetched l') = true ->
      P l w (Stop LimitReached) l' (saveProgress p (startAt l') w1)) ->
  (forall l w d w1 x lf wf,
      limit_reached limit (totalFetched l) = false ->
      fetch l w = (Return d, w1) ->
      issues_of d <> [] ->
      let l' := after_page l (issues_of d) in
      limit_reached limit (totalFetched l') = false ->
      P l' (saveProgress p (startAt l') w1) x lf wf ->
      P l w x lf wf) ->
  forall fuel l w x lf wf,
    scrapeLoop srv p limit fuel l w = (x, lf, wf) -> P l w x lf wf.
Proof.
  intros Hcut Hhead Hfail Hempty Hlast Hnext.
  induction fuel as [|fuel IH]; intros l w x lf wf; simpl.
  - intros [= <- <- <-]. apply Hcut.
  - destruct (limit_reached limit (totalFetched l)) eqn:Hlim.
    + intros [= <- <- <-]. by apply Hhead.
    + destruct (fetchPageWithRetry srv (mkUrl p (startAt l)) w)
        as [[d|e] w1] eqn:Hf.
      * destruct (issues_of d) as [|i page] eqn:Hpage; simpl.
        { intros [= <- <- <-]. by eapply Hempty. }
        destruct (limit_reached limit
                    (totalFetched l + Z.of_nat (S (length page)))) eqn:Hlim'.
        { intros [= <- <- <-].
          pose proof (Hlast l w d w1 Hlim Hf) as H.
          rewrite Hpage in H. apply H; [done|]. exact Hlim'. }
        intros Hrec. apply IH in Hrec.
        pose proof (Hnext l w d w1 x lf wf Hlim Hf) as H.
        rewrite Hpage in H. apply H; [done| |]. { exact Hlim'. } exact Hrec.
      * intros [= <- <- <-]. by eapply Hfail.
Qed.

End Loop.

Lemma cursor_of_insert (m : gmap string Z) p c :
  cursor_of (<[p := c]> m) p = c.
Proof.
  unfold cursor_of. rewrite lookup_insert_eq.
  destruct (Z.eqb_spec c 0); congruence.
Qed.

Lemma cursor_of_insert_ne (m : gmap string Z) p q c :
  q <> p -> cursor_of (<[p := c]> m) q = cursor_of m q.
Proof. intros Hne. unfold cursor_of. by rewrite lookup_insert_ne. Qed.

Lemma no_store_no_raw evs : Forall no_store evs -> Forall no_raw evs.
Proof. induction 1 as [|e evs He _ IH]; constructor; [by destruct e|done]. Qed.

Lemma scrapeLoop_log srv p limit fuel l w x lf wf :
  scrapeLoop srv p limit fuel l w = (x, lf, wf) ->
  exists new,
    log wf = new ++ log w
    /\ Forall no_raw new
    /\ (forall q, q <> p -> pages q new = [])
    /\ allIssues lf = allIssues l ++ received p new
    /\ totalFetched lf
       = totalFetched l + Z.of_nat (length (received p new))
    /\ startAt lf = startAt l + Z.of_nat (length (received p new))
    /\ raw_dir wf = raw_dir w.
Proof.
  revert fuel l w x lf wf.
  apply (scrapeLoop_cases srv p limit
           (fun l w x lf wf =>
              exists new,
                log wf = new ++ log w
                /\ Forall no_raw new
                /\ (forall q, q <> p -> pages q new = [])
                /\ allIssues lf = allIssues l ++ received p new
                /\ totalFetched lf
                   = totalFetched l + Z.of_nat (length (received p new))
                /\ startAt lf = startAt l + Z.of_nat (length (received p new))
                /\ raw_dir wf = raw_dir w)).
  - intros l w. exists []. simpl. splits; try done; try lia.
    by rewrite app_nil_r.
  - intros l w _. exists []. simpl. splits; try done; try lia.
    by rewrite app_nil_r.
  - intros l w e w1 _ Hf.
    apply fetchPageWithRetry_spec in Hf
      as (_ & _ & Hraw & _ & _ & (new & Hlog & Hns & Hpg) & _).
    simpl in Hpg.
    exists (EvUI (MsgFetchFailed (startAt l) e) :: new). simpl.
    assert (Hall : forall q, pages q new = [])
      by (intros q; rewrite Hpg; by destruct (String.eqb p q)).
    unfold received. simpl. rewrite !Hall. simpl.
    splits; try done; try lia.
    + by rewrite Hlog.
    + constructor; [done|]. by apply no_store_no_raw.
    + intros q _. by rewrite Hall.
    + by rewrite app_nil_r.
  - intros l w d w1 _ Hf Hempty.
    apply fetchPageWithRetry_spec in Hf
      as (_ & _ & Hraw & _ & _ & (new & Hlog & Hns & Hpg) & _).
    simpl in Hpg. exists new. unfold received.
    rewrite (Hpg p), String.eqb_refl. simpl. rewrite Hempty. simpl.
    splits; try done; try lia.
    + by apply no_store_no_raw.
    + intros q Hq. rewrite Hpg.
      destruct (String.eqb_spec p q); [congruence|done].
    + by rewrite app_nil_r.
  - intros l w d w1 _ Hf Hne l' _.
    apply fetchPageWithRetry_spec in Hf
      as (_ & _ & Hraw & _ & _ & (new & Hlog & Hns & Hpg) & _).
    simpl in Hpg.
    exists (EvSaveProgress (<[p := startAt l']> (progress w1)) :: new).
    unfold received. simpl.
    rewrite (Hpg p), String.eqb_refl. simpl. rewrite !app_nil_r.
    splits; try done.
    + by rewrite Hlog.
    + constructor; [done|]. by apply no_store_no_raw.
    + intros q Hq. rewrite Hpg, app_nil_r.
      destruct (String.eqb_spec p q); [congruence|done].
  - intros l w d w1 x lf wf _ Hf Hne l' _
      (new' & Hlog' & Hnr' & Hoth' & Hall' & Htot' & Hst' & Hraw').
    apply fetchPageWithRetry_spec in Hf
      as (_ & _ & Hraw & _ & _ & (new & Hlog & Hns & Hpg) & _).
    simpl in *.
    exists (new' ++ EvSaveProgress (<[p := startAt l']> (progress w1)) :: new).
    assert (Hrecv : received p
              (new' ++ EvSaveProgress (<[p := startAt l']> (progress w1)) :: new)
              = issues_of d ++ received p new').
    { rewrite received_app. unfold received. simpl.
      rewrite (Hpg p), String.eqb_refl. simpl. by rewrite !app_nil_r. }
    rewrite Hrecv, length_app.
    splits.
    + rewrite Hlog', Hlog, <- app_assoc. done.
    + apply Forall_app. split; [done|].
      constructor; [done|]. by apply no_store_no_raw.
    + intros q Hq. rewrite pages_app. simpl. rewrite Hoth' by done.
      rewrite Hpg, !app_nil_r.
      destruct (String.eqb_spec p q); [congruence|done].
    + rewrite Hall'. by rewrite app_assoc.
    + rewrite Htot'. lia.
    + rewrite Hst'. lia.
    + congruence.
Qed.

Lemma tracked_quiet q c0 w w1 new :
  log w1 = new ++ log w -> Forall no_save new -> pages q new = [] ->
  progress w1 = progress w ->
  tracked q c0 w -> tracked q c0 w1.
Proof.
  intros Hlog Hns Hpg Hpr [Hc Ht]. unfold tracked.
  rewrite Hlog, Hpr, received_app. unfold received at 2. rewrite Hpg. simpl.
  rewrite app_nil_r. split; [done|]. by apply cursor_tracks_app.
Qed.

Lemma tracked_save q c0 p c w1 :
  cursor_of (<[p := c]> (progress w1)) q
  = c0 + Z.of_nat (length (received q (log w1))) ->
  cursor_tracks q c0 (log w1) ->
  tracked q c0 (saveProgress p c w1).
Proof.
  intros Hc Ht. unfold tracked, saveProgress, received. simpl.
  rewrite app_nil_r. fold (received q (log w1)). done.
Qed.

Lemma paced_ui m w : paced w -> paced (ui m w).
Proof. apply (paced_quiet w (ui m w) [EvUI m]); simpl; try done. by repeat constructor. Qed.

Lemma paced_saveProgress p c w : paced w -> paced (saveProgress p c w).
Proof.
  apply (paced_quiet w _ [EvSaveProgress (<[p := c]> (progress w))]);
    simpl; try done. by repeat constructor.
Qed.

Lemma paced_writeRaw p content w : paced w -> paced (writeRaw p content w).
Proof.
  apply (paced_quiet w _ [EvWriteRaw p content]); simpl; try done.
  by repeat constructor.
Qed.

Lemma coherent_saveProgress p c w : coherent (saveProgress p c w).
Proof. by left. Qed.

Lemma scrapeLoop_tracked srv p limit fuel l w x lf wf :
  scrapeLoop srv p limit fuel l w = (x, lf, wf) ->
  startAt l = cursor_of (progress w) p ->
  startAt lf = cursor_of (progress wf) p
  /\ (coherent w -> coherent wf)
  /\ (forall q c0, tracked q c0 w -> tracked q c0 wf)
  /\ (paced w -> paced wf).
Proof.
  revert fuel l w x lf wf.
  apply (scrapeLoop_cases srv p limit
           (fun l w x lf wf =>
              startAt l = cursor_of (progress w) p ->
              startAt lf = cursor_of (progress wf) p
              /\ (coherent w -> coherent wf)
              /\ (forall q c0, tracked q c0 w -> tracked q c0 wf)
              /\ (paced w -> paced wf))).
  - done.
  - done.
  - intros l w e w1 _ Hf Hst.
    apply fetchPageWithRetry_spec in Hf
      as (Hpr & Hpj & _ & _ & _ & (new & Hlog & Hns & Hpg) & Hpaced & _).
    simpl in Hpg.
    assert (Hall : forall q, pages q new = [])
      by (intros q; rewrite Hpg; by destruct (String.eqb p q)).
    splits.
    + simpl. congruence.
    + unfold coherent. simpl. by rewrite Hpj, Hpr.
    + intros q c0 Hq.
      apply (tracked_quiet q c0 w _ (EvUI (MsgFetchFailed (startAt l) e) :: new));
        simpl; try done.
      * by rewrite Hlog.
      * constructor; [done|]. by apply no_store_no_save.
      * by rewrite Hall.
    + intros Hw. by apply paced_ui, Hpaced.
  - intros l w d w1 _ Hf Hempty Hst.
    apply fetchPageWithRetry_spec in Hf
      as (Hpr & Hpj & _ & _ & _ & (new & Hlog & Hns & Hpg) & Hpaced & _).
    simpl in Hpg.
    assert (Hall : forall q, concat (pages q new) = []).
    { intros q. rewrite Hpg. destruct (String.eqb p q); [|done].
      simpl. by rewrite Hempty. }
    splits.
    + congruence.
    + unfold coherent. by rewrite Hpj, Hpr.
    + intros q c0 [Hc Ht]. unfold tracked.
      rewrite Hlog, Hpr, received_app. unfold received at 2. rewrite Hall.
      rewrite app_nil_r. split; [done|]. apply cursor_tracks_app; [by apply no_store_no_save|done].
    + done.
  - intros l w d w1 _ Hf Hne l' _ Hst.
    apply fetchPageWithRetry_spec in Hf
      as (Hpr & Hpj & _ & _ & _ & (new & Hlog & Hns & Hpg) & Hpaced & _).
    simpl in Hpg.
    splits.
    + simpl. by rewrite cursor_of_insert.
    + intros _. apply coherent_saveProgress.
    + intros q c0 [Hc Ht]. apply tracked_save.
      * rewrite Hlog, Hpr, received_app, length_app. unfold received at 2.
        rewrite Hpg.
        destruct (String.eqb_spec p q) as [<-|Hq].
        -- rewrite cursor_of_insert. simpl. rewrite app_nil_r. lia.
        -- rewrite cursor_of_insert_ne by congruence. simpl. lia.
      * rewrite Hlog. apply cursor_tracks_app; [by apply no_store_no_save|done].
    + intros Hw. by apply paced_saveProgress, Hpaced.
  - intros l w d w1 x lf wf _ Hf Hne l' _ IH Hst.
    apply fetchPageWithRetry_spec in Hf
      as (Hpr & Hpj & _ & _ & _ & (new & Hlog & Hns & Hpg) & Hpaced & _).
    simpl in Hpg.
    destruct IH as (IHst & IHco & IHtr & IHpa).
    { simpl. by rewrite cursor_of_insert. }
    splits.
    + done.
    + intros _. apply IHco, coherent_saveProgress.
    + intros q c0 [Hc Ht]. apply IHtr, tracked_save.
      * rewrite Hlog, Hpr, received_app, length_app. unfold received at 2.
        rewrite Hpg.
        destruct (String.eqb_spec p q) as [<-|Hq].
        -- rewrite cursor_of_insert. simpl. rewrite app_nil_r. lia.
        -- rewrite cursor_of_insert_ne by congruence. simpl. lia.
      * rewrite Hlog. apply cursor_tracks_app; [by apply no_store_no_save|done].
    + intros Hw. by apply IHpa, paced_saveProgress, Hpaced.
Qed.

(** ** One project, then all of them *)

Lemma scrapeProject_spec cfg srv fuel p w x wf :
  scrapeProject cfg srv fuel p w = (x, wf) ->
  exists new,
    log wf = new ++ log w
    /\ In (EvUI (MsgSection p)) new
    /\ (forall q, q <> p -> pages q new = [])
    /\ match x with
       | Stop _ => raw_dir wf = <[p := received p new]> (raw_dir w)
       | Interrupted => raw_dir wf = raw_dir w
       end
    /\ cursor_of (progress wf) p
       = cursor_of (progress w) p + Z.of_nat (length (received p new))
    /\ (coherent w -> coherent wf)
    /\ (forall q c0, tracked q c0 w -> tracked q c0 wf)
    /\ (paced w -> paced wf).
Proof.
  unfold scrapeProject.
  set (w0 := ui (MsgSection p) w).
  set (l0 := mkLocals [] (cursor_of (progress w0) p) 0).
  destruct (scrapeLoop srv p (projectLimit_of cfg p) fuel l0 w0)
    as [[x0 lf] w1] eqn:Hloop.
  destruct (scrapeLoop_log _ _ _ _ _ _ _ _ _ Hloop)
    as (new & Hlog & Hnr & Hoth & Hall & Htot & Hst & Hraw).
  destruct (scrapeLoop_tracked _ _ _ _ _ _ _ _ _ Hloop)
    as (Tst & Tco & Ttr & Tpa); [done|].
  assert (Htr0 : forall q c0, tracked q c0 w -> tracked q c0 w0).
  { intros q c0. apply (tracked_quiet q c0 w w0 [EvUI (MsgSection p)]);
      try done. by repeat constructor. }
  assert (Hrecv : received p (new ++ [EvUI (MsgSection p)]) = received p new)
    by (rewrite received_app; done).
  assert (Hpg : forall q, q <> p -> pages q (new ++ [EvUI (MsgSection p)]) = []).
  { intros q Hq. rewrite pages_app. simpl. by apply Hoth. }
  simpl in Hall, Htot, Hst.
  destruct x0 as [r|]; intros [= <- <-].
  - exists (EvUI (MsgFinished p (length (allIssues lf)))
            :: EvWriteRaw p (allIssues lf) :: new ++ [EvUI (MsgSection p)]).
    splits.
    + simpl. rewrite Hlog. simpl. by rewrite <- app_assoc.
    + right. right. apply in_or_app. right. by left.
    + intros q Hq. simpl. rewrite !app_nil_r. by apply Hpg.
    + simpl. rewrite Hraw, Hall. unfold received. simpl.
      rewrite !app_nil_r. by fold (received p (new ++ [EvUI (MsgSection p)]));
        rewrite Hrecv.
    + simpl. unfold received. simpl. rewrite !app_nil_r.
      fold (received p (new ++ [EvUI (MsgSection p)])). rewrite Hrecv.
      rewrite <- Tst, Hst. done.
    + intros Hw. unfold coherent. simpl. apply Tco. exact Hw.
    + intros q c0 Hq.
      apply (tracked_quiet q c0 w1 _
               [EvUI (MsgFinished p (length (allIssues lf)));
                EvWriteRaw p (allIssues lf)]); try done.
      * by repeat constructor.
      * by apply Ttr, Htr0.
    + intros Hw. apply paced_ui, paced_writeRaw, Tpa, paced_ui, Hw.
  - exists (new ++ [EvUI (MsgSection p)]).
    splits.
    + rewrite Hlog. simpl. by rewrite <- app_assoc.
    + apply in_or_app. right. by left.
    + exact Hpg.
    + done.
    + rewrite Hrecv, <- Tst, Hst. done.
    + exact Tco.
    + intros q c0 Hq. by apply Ttr, Htr0.
    + intros Hw. by apply Tpa, paced_ui.
Qed.

Lemma scrapeAll_spec cfg srv fuel ps w b wf :
  scrapeAll cfg srv fuel ps w = (b, wf) ->
  (coherent w -> coherent wf)
  /\ (forall q c0, tracked q c0 w -> tracked q c0 wf)
  /\ (paced w -> paced wf).
Proof.
  revert w. induction ps as [|p ps IH]; intros w; simpl.
  - by intros [= <- <-].
  - destruct (scrapeProject cfg srv fuel p w) as [x w1] eqn:Hp.
    apply scrapeProject_spec in Hp
      as (new & _ & _ & _ & _ & _ & Hco & Htr & Hpa).
    destruct x as [r|].
    + intros Hrest. apply IH in Hrest as (Ico & Itr & Ipa).
      splits; [tauto| |tauto]. intros q c0 Hq. by apply Itr, Htr.
    + by intros [= <- <-].
Qed.

(** ** The fetcher: what the claims say *)

Lemma fetch_accepted_at_once srv url w d :
  accepted (outcome (srv (requests w) url)) = Some d ->
  exists w1, fetchPageWithRetry srv url w = (Return d, w1)
             /\ requests w1 = S (requests w).
Proof.
  intros Hacc. unfold fetchPageWithRetry, pRetry. simpl.
  destruct (attempt srv url w) as [r w1] eqn:Ha.
  apply attempt_spec in Ha as (_ & _ & _ & Hq & _ & _ & _ & _ & Hres).
  simpl in Hres. rewrite Hacc in Hres. subst r. eauto.
Qed.

(** C1 (the code departs from it).  A response with a 4xx status other
    than 429 that carries a body is not a failure to [fetchPageWithRetry]:
    the first attempt returns the body as the page, after one GET. *)
Theorem client_error_with_body_is_returned srv url w lat resp d :
  srv (requests w) url = mkReply lat (HttpResponse resp) ->
  400 <= status resp < 500 ->
  status resp <> 429 ->
  data resp = Some d ->
  exists w1, fetchPageWithRetry srv url w = (Return d, w1)
             /\ requests w1 = S (requests w).
Proof.
  intros Hsrv [H400 H500] H429 Hdata. apply fetch_accepted_at_once.
  rewrite Hsrv. unfold accepted. simpl. unfold validateStatus.
  destruct (Z.ltb_spec (status resp) 500); [|lia]. simpl.
  destruct (Z.eqb_spec (status resp) 429); [lia|].
  destruct (Z.leb_spec 500 (status resp)); [lia|]. done.
Qed.

Lemma client_error_with_body_is_returned_witness :
  exists w1,
    fetchPageWithRetry not_found (mkUrl SPARK 0) fresh
    = (Return (mkBody None), w1)
    /\ requests w1 = S (requests fresh).
Proof.
  apply (client_error_with_body_is_returned not_found (mkUrl SPARK 0) fresh
           12%nat (mkResponse 404 None (Some (mkBody None))) (mkBody None)).
  - reflexivity.
  - simpl. lia.
  - simpl. lia.
  - reflexivity.
Defined.

(** A 404 ends the project as if its data had run out. *)
Example not_found_reads_as_exhausted :
  fst (scrapeProject (mkConfig [SPARK] None None) not_found 10 SPARK fresh)
  = Stop Exhausted.
Proof. vm_compute. reflexivity. Qed.

(** A 404 without a body is an 'Empty response', retried like any other. *)
Example not_found_bare_is_retried :
  let r := fetchPageWithRetry not_found_bare (mkUrl SPARK 0) fresh in
  fst r = Throw EmptyResponse /\ requests (snd r) = 6%nat.
Proof. vm_compute. split; reflexivity. Qed.

(** C4, as stated, fails: after a 429 that asks for 10 s the first retry
    goes out 12 s after the reply, not max(10 s, 2 s) = 10 s after it. *)
Lemma wait_after_429_is_not_the_maximum :
  observed_waits
    (log (snd (fetchPageWithRetry throttled_once (mkUrl SPARK 0) fresh)))
  = [12000]
  /\ 12000 <> Z.max (10 * 1000) (Z.min (2000 * 2 ^ (1 - 1)) 60000).
Proof. vm_compute. split; [reflexivity | discriminate]. Qed.

(** C4 (amended).  When attempt [k] fails and a retry is left, the retry
    starts after the backoff delay min(2000 * 2^(k-1), 60000) ms, counted
    from the end of the attempt; an attempt that got a 429 ends only after
    it has itself waited the server's delay (retry-after seconds, 60 s
    without the header).  So the clock at the start of the retry is the end
    of the GET plus the server's delay plus the backoff delay, and the
    retry's request is issued at once. *)
Theorem retry_wait_adds_server_delay_to_backoff srv url n k w e w1 :
  attempt srv url w = (Throw e, w1) ->
  (1 <= k)%nat ->
  let reply := srv (requests w) url in
  let w2 := delay (Some (backoffDelay retry_options k))
                  (onFailedAttempt k (S n) w1) in
  pRetry_from retry_options (attempt srv url) (S n) k w
  = pRetry_from retry_options (attempt srv url) n (S k) w2
  /\ clock w2
     = (lastRequestTime w1 + Z.of_nat (latency reply))
       + serverDelay reply
       + Z.min (2000 * 2 ^ (Z.of_nat k - 1)) 60000
  /\ lastRequestTime (rateLimit w2) = clock w2
  /\ serverDelay reply
     = match outcome reply with
       | HttpResponse resp =>
           if status resp =? 429 then JS.timer_ms (retryAfter_of resp) else 0
       | NetworkFailure _ => 0
       end.
Proof.
  intros Ha Hk reply w2.
  assert (Hstep : pRetry_from retry_options (attempt srv url) (S n) k w
                  = pRetry_from retry_options (attempt srv url) n (S k) w2)
    by (simpl; rewrite Ha; reflexivity).
  apply attempt_spec in Ha as (_ & _ & _ & _ & Hl & Hc & _ & _ & _).
  fold reply in Hc.
  pose proof (serverDelay_nonneg reply) as Hsd.
  pose proof (backoffDelay_bounds k) as Hb.
  assert (Hclock : clock w2 = clock w1 + backoffDelay retry_options k).
  { subst w2. unfold delay. simpl. by rewrite timer_backoff. }
  assert (Hlast : lastRequestTime w2 = lastRequestTime w1) by reflexivity.
  splits.
  - exact Hstep.
  - rewrite Hclock, Hc, Hl, backoffDelay_eq.
    replace (Z.of_nat (k - 1)) with (Z.of_nat k - 1) by lia. lia.
  - destruct (rateLimit_spec w2) as (_ & _ & _ & _ & _ & _ & _ & Hfast & _).
    rewrite Hfast; [reflexivity|]. unfold MIN_REQUEST_INTERVAL. lia.
  - unfold serverDelay, axios_get. destruct (outcome reply) as [resp|c]; [|done].
    unfold validateStatus.
    destruct (Z.ltb_spec (status resp) 500); simpl; [done|].
    destruct (Z.eqb_spec (status resp) 429); simpl; [lia|done].
Qed.

Lemma retry_wait_adds_server_delay_to_backoff_witness :
  let w := fresh in
  let url := mkUrl SPARK 0 in
  let w1 := snd (attempt throttled_once url w) in
  let w2 := delay (Some (backoffDelay retry_options 1))
                  (onFailedAttempt 1 5 w1) in
  pRetry_from retry_options (attempt throttled_once url) 5 1 w
  = pRetry_from retry_options (attempt throttled_once url) 4 2 w2
  /\ clock w2
     = (lastRequestTime w1 + 12) + serverDelay (throttled_once 0%nat url)
       + Z.min (2000 * 2 ^ (1 - 1)) 60000
  /\ lastRequestTime (rateLimit w2) = clock w2
  /\ serverDelay (throttled_once 0%nat url) = 10000.
Proof.
  apply (retry_wait_adds_server_delay_to_backoff
           throttled_once (mkUrl SPARK 0) 4 1 fresh RateLimited
           (snd (attempt throttled_once (mkUrl SPARK 0) fresh))).
  - reflexivity.
  - lia.
Defined.

(** Without the header the 429 branch waits its default of 60 s; with a
    header that is a date, [parseInt] gives [NaN] and the timer is armed
    for 1 ms. *)
Example server_delay_of_a_429 :
  serverDelay (mkReply 12 (HttpResponse (mkResponse 429 None None))) = 60000
  /\ serverDelay (throttled_once 0%nat (mkUrl SPARK 0)) = 10000
  /\ serverDelay throttled_until_date = 1.
Proof. vm_compute. repeat split; reflexivity. Qed.

(** C5, as stated, fails: a service that always answers 503 is asked six
    times, not at most five. *)
Lemma unavailable_is_asked_six_times :
  requests (snd (fetchPageWithRetry unavailable (mkUrl SPARK 0) fresh)) = 6%nat
  /\ ~ (requests (snd (fetchPageWithRetry unavailable (mkUrl SPARK 0) fresh))
        <= requests fresh + 5)%nat.
Proof. vm_compute. split; [reflexivity|]. intros H. lia. Qed.

(** C5 (amended).  One call of [fetchPageWithRetry] issues at least one
    and at most six GETs: the first attempt and up to five retries.  It
    throws only after all six; and when the service answers 503 every
    time it does throw, after five retries. *)
Theorem fetch_makes_at_most_six_attempts srv url w r w1 :
  fetchPageWithRetry srv url w = (r, w1) ->
  (requests w < requests w1 <= requests w + 6)%nat
  /\ (is_throw r = true -> requests w1 = (requests w + 6)%nat)
  /\ ((forall n, exists lat h b,
         srv n url = mkReply lat (HttpResponse (mkResponse 503 h b))) ->
      is_throw r = true /\ requests w1 = (requests w + 6)%nat).
Proof.
  intros Hf.
  apply fetchPageWithRetry_spec in Hf
    as (_ & _ & _ & Hq & Hthrow & _ & _ & Hsrc).
  splits; [lia|lia|exact Hthrow|].
  intros H503.
  assert (Hr : is_throw r = true).
  { destruct r as [d|e]; [|done].
    destruct (Hsrc d eq_refl) as [n Hacc].
    destruct (H503 n) as (lat & h & b & Hn). by rewrite Hn in Hacc. }
  split; [done|]. by apply Hthrow.
Qed.

Lemma fetch_makes_at_most_six_attempts_witness :
  let r := fetchPageWithRetry unavailable (mkUrl SPARK 0) fresh in
  (requests fresh < requests (snd r) <= requests fresh + 6)%nat
  /\ is_throw (fst r) = true
  /\ requests (snd r) = (requests fresh + 6)%nat.
Proof.
  intros r.
  destruct (fetch_makes_at_most_six_attempts
              unavailable (mkUrl SPARK 0) fresh (fst r) (snd r)
              (surjective_pairing r)) as (Hle & _ & Hall).
  split; [exact Hle|]. apply Hall.
  intros n. exists 12%nat, None, None. reflexivity.
Defined.

(** ** Start-up *)

Lemma absent_progress_starts_from_zero cfg srv fuel now raw p :
  runScraper cfg srv fuel now (mkDisk None raw)
  = Return (main cfg srv fuel (boot now (mkDisk None raw) ∅))
  /\ cursor_of (progress (boot now (mkDisk None raw) ∅)) p = 0.
Proof. split; reflexivity. Qed.

(** C2 (the code departs from it).  With a progress.json that does not
    parse, module initialisation throws [SyntaxError]: the run ends there,
    [main] is never entered and nothing is fetched. *)
Theorem malformed_progress_aborts_run cfg srv fuel now raw :
  loadProgress (mkDisk (Some Malformed) raw) = Throw SyntaxError
  /\ runScraper cfg srv fuel now (mkDisk (Some Malformed) raw)
     = Throw SyntaxError.
Proof. split; reflexivity. Qed.

Lemma cursor_tracks_split p c0 evs later snap earlier :
  cursor_tracks p c0 evs ->
  evs = later ++ EvSaveProgress snap :: earlier ->
  cursor_of snap p = c0 + Z.of_nat (length (received p earlier)).
Proof.
  revert evs. induction later as [|e later IH]; intros evs Ht ->; simpl in Ht.
  - tauto.
  - destruct Ht as [_ Ht]. by eapply IH.
Qed.

Lemma cursor_tracks_shift p c0 new hist :
  cursor_tracks p (c0 + Z.of_nat (length (received p hist))) new ->
  cursor_tracks p c0 hist ->
  cursor_tracks p c0 (new ++ hist).
Proof.
  intros Hnew Hhist. induction new as [|e new IH]; simpl in *; [done|].
  destruct Hnew as [He Hnew]. split; [|by apply IH].
  destruct e; try done. rewrite He, received_app, length_app. lia.
Qed.

Lemma coherent_disk_cursor w p :
  coherent w -> disk_cursor (disk_of w) p = cursor_of (progress w) p.
Proof.
  unfold disk_cursor. simpl. intros [-> | [-> ->]]; done.
Qed.

Lemma campaign_tracks p c0 ss d hist :
  disk_cursor d p = c0 + Z.of_nat (length (received p hist)) ->
  cursor_tracks p c0 hist ->
  disk_cursor (fst (campaign ss d hist)) p
  = c0 + Z.of_nat (length (received p (snd (campaign ss d hist))))
  /\ cursor_tracks p c0 (snd (campaign ss d hist)).
Proof.
  revert d hist. induction ss as [|s ss IH]; intros d hist Hd Hh; simpl.
  - done.
  - unfold runScraper.
    destruct (loadProgress d) as [pr|e] eqn:Hload; [|by apply IH].
    destruct (main (s_cfg s) (s_srv s) (s_fuel s) (boot (s_now s) d pr))
      as [b wf] eqn:Hmain.
    set (w0 := boot (s_now s) d pr) in *.
    assert (Hco0 : coherent w0).
    { unfold coherent, loadProgress in *. simpl.
      destruct (disk_progress d) as [[|doc]|]; try done.
      - left. congruence.
      - right. split; congruence. }
    assert (Hc0 : cursor_of pr p = disk_cursor d p).
    { unfold loadProgress, disk_cursor in *.
      destruct (disk_progress d) as [[|doc]|]; try done;
        by injection Hload as <-. }
    assert (Htr0 : tracked p (cursor_of pr p) w0).
    { unfold tracked. simpl. split; [lia|done]. }
    unfold main in Hmain.
    apply scrapeAll_spec in Hmain as (Hco & Htr & _).
    destruct (Htr _ _ Htr0) as [Hcur Htrk].
    apply IH.
    + rewrite coherent_disk_cursor by auto.
      rewrite Hcur, Hc0, Hd, received_app, length_app. lia.
    + apply cursor_tracks_shift; [|done]. by rewrite <- Hd, <- Hc0.
Qed.

Lemma spaced_span ts t_last t_first :
  spaced ts -> head ts = Some t_last -> last ts = Some t_first ->
  (Z.of_nat (length ts) - 1) * 200 <= t_last - t_first.
Proof.
  revert t_last. induction ts as [|t2 ts IH]; intros t_last Hsp Hh Hl;
    [done|].
  simpl in Hh. injection Hh as ->.
  destruct ts as [|t1 ts'].
  - simpl in Hl. injection Hl as ->. simpl. lia.
  - destruct Hsp as [Hgap Hsp]. unfold MIN_REQUEST_INTERVAL in Hgap.
    specialize (IH t1 Hsp eq_refl Hl).
    change (length (t_last :: t1 :: ts')) with (S (length (t1 :: ts'))).
    lia.
Qed.

(** ** The loop: what the claims say *)

(** C3.  When [scrapeProject] finishes, the project's raw file holds the
    records obtained during this call and nothing else, whatever the file
    held before; the cursor meanwhile has advanced from where it stood, so
    after a resumed run it counts records that the file no longer has. *)
Theorem raw_file_holds_this_run_only cfg srv fuel p w r wf :
  scrapeProject cfg srv fuel p w = (Stop r, wf) ->
  exists new,
    log wf = new ++ log w
    /\ raw_dir wf !! p = Some (received p new)
    /\ cursor_of (progress wf) p
       = cursor_of (progress w) p + Z.of_nat (length (received p new)).
Proof.
  intros Hp.
  apply scrapeProject_spec in Hp as (new & Hlog & _ & _ & Hraw & Hcur & _).
  exists new. splits; [done| |done].
  rewrite Hraw. apply lookup_insert_eq.
Qed.

Lemma raw_file_holds_this_run_only_witness :
  exists new,
    log (snd (scrapeProject (mkConfig [SPARK] None None) (tracker 120) 10
                            SPARK resumed))
    = new ++ log resumed
    /\ raw_dir (snd (scrapeProject (mkConfig [SPARK] None None) (tracker 120)
                                   10 SPARK resumed)) !! SPARK
       = Some (received SPARK new)
    /\ cursor_of (progress (snd (scrapeProject (mkConfig [SPARK] None None)
                                               (tracker 120) 10 SPARK resumed)))
                 SPARK
       = cursor_of (progress resumed) SPARK
         + Z.of_nat (length (received SPARK new)).
Proof.
  apply (raw_file_holds_this_run_only (mkConfig [SPARK] None None)
           (tracker 120) 10 SPARK resumed Exhausted).
  vm_compute. reflexivity.
Defined.

(** The resumed run leaves issues 50..119 in the file, and not issue 0,
    with the cursor at 120. *)
Example resumed_run_drops_earlier_records :
  let wf := snd (scrapeProject (mkConfig [SPARK] None None) (tracker 120) 10
                               SPARK resumed) in
  raw_dir resumed !! SPARK = Some (seq 0 50)
  /\ raw_dir wf !! SPARK = Some (seq 50 70)
  /\ cursor_of (progress wf) SPARK = 120.
Proof. vm_compute. splits; reflexivity. Qed.

(** C6.  Over any number of runs, each resumed from the disk the previous
    one left: every snapshot of progress.json holds, for a project, the
    cursor found on the first disk plus the number of records obtained
    for it before that write (in this run and the runs before), so the
    cursor moves only with pages already obtained; successive snapshots
    never decrease; and the cursor on the last disk counts all records
    obtained. *)
Theorem cursor_counts_records_and_never_goes_back ss d p :
  let c0 := disk_cursor d p in
  let d' := fst (campaign ss d []) in
  let hist := snd (campaign ss d []) in
  (forall later snap earlier,
      hist = later ++ EvSaveProgress snap :: earlier ->
      cursor_of snap p = c0 + Z.of_nat (length (received p earlier)))
  /\ (forall l3 s2 l2 s1 l1,
         hist = l3 ++ EvSaveProgress s2 :: l2 ++ EvSaveProgress s1 :: l1 ->
         c0 <= cursor_of s1 p <= cursor_of s2 p)
  /\ disk_cursor d' p = c0 + Z.of_nat (length (received p hist)).
Proof.
  intros c0 d' hist.
  destruct (campaign_tracks p c0 ss d []) as [Hd Ht]; [simpl; lia|done|].
  fold d' hist in Hd, Ht.
  assert (Hsplit : forall later snap earlier,
             hist = later ++ EvSaveProgress snap :: earlier ->
             cursor_of snap p = c0 + Z.of_nat (length (received p earlier)))
    by (intros; by eapply cursor_tracks_split).
  splits; [exact Hsplit| |exact Hd].
  intros l3 s2 l2 s1 l1 Hh.
  pose proof (Hsplit l3 s2 _ Hh) as H2.
  assert (Hh' : hist = (l3 ++ EvSaveProgress s2 :: l2)
                         ++ EvSaveProgress s1 :: l1)
    by (rewrite Hh, <- app_assoc; done).
  pose proof (Hsplit _ s1 _ Hh') as H1.
  assert (Hs1 : received p (EvSaveProgress s1 :: l1) = received p l1)
    by (unfold received; simpl; by rewrite app_nil_r).
  rewrite received_app, length_app, Hs1 in H2. lia.
Qed.

(** A first run killed after one page and a second one that goes to the
    end: the cursors written are 50, then 100 and 120, and the raw file the
    second run leaves lacks the first 50 issues. *)
Example killed_then_resumed :
  let cfg := mkConfig [SPARK] None None in
  let r := campaign [mkSession cfg (tracker 120) 1 1700000000000;
                     mkSession cfg (tracker 120) 10 1700000600000]
                    (mkDisk None ∅) [] in
  saved_cursors SPARK (snd r) = [50; 100; 120]
  /\ disk_cursor (fst r) SPARK = 120
  /\ disk_raw (fst r) !! SPARK = Some (seq 50 70).
Proof. vm_compute. splits; reflexivity. Qed.

(** C9.  In a run of the script the GETs are issued at least 200 ms apart
    on the process clock, so the K-th is issued no less than (K - 1) * 200
    ms after the first. *)
Theorem requests_are_paced cfg srv fuel now d pr :
  let ts := get_times (log (snd (main cfg srv fuel (boot now d pr)))) in
  spaced ts
  /\ forall t_last t_first,
       head ts = Some t_last -> last ts = Some t_first ->
       (Z.of_nat (length ts) - 1) * 200 <= t_last - t_first.
Proof.
  intros ts.
  assert (Hsp : spaced ts).
  { subst ts. unfold main.
    destruct (scrapeAll cfg srv fuel (PROJECTS cfg) (boot now d pr))
      as [b wf] eqn:Hall.
    apply scrapeAll_spec in Hall as (_ & _ & Hpaced).
    simpl. apply Hpaced. split; simpl; done. }
  split; [done|]. intros t_last t_first. by apply spaced_span.
Qed.

(** ** A per-project limit *)

Section Limit.

Variables (srv : Server) (p : string) (L : Z).
Hypothesis L_pos : 0 < L.

Lemma limit_reached_pos t : limit_reached (Some L) t = (L <=? t).
Proof. unfold limit_reached. destruct (Z.eqb_spec L 0); [lia|done]. Qed.

(** Pages of at most 50 records: the count stays under [L + 50]. *)
Lemma scrapeLoop_limit fuel l w x lf wf :
  (forall n u d, accepted (outcome (srv n u)) = Some d ->
                 (length (issues_of d) <= 50)%nat) ->
  scrapeLoop srv p (Some L) fuel l w = (x, lf, wf) ->
  totalFetched l < L + 50 ->
  totalFetched lf < L + 50
  /\ (x = Stop LimitReached -> L <= totalFetched lf).
Proof.
  intros Hsize. revert fuel l w x lf wf.
  apply (scrapeLoop_cases srv p (Some L)
           (fun l w x lf wf =>
              totalFetched l < L + 50 ->
              totalFetched lf < L + 50
              /\ (x = Stop LimitReached -> L <= totalFetched lf))).
  - done.
  - intros l w Hlim Hl. rewrite limit_reached_pos in Hlim.
    split; [done|]. intros _. lia.
  - done.
  - done.
  - intros l w d w1 Hlim Hf Hne l' Hlim' _.
    rewrite limit_reached_pos in Hlim, Hlim'.
    apply fetchPageWithRetry_spec in Hf as (_ & _ & _ & _ & _ & _ & _ & Hsrc).
    destruct (Hsrc d eq_refl) as [n Hacc]. apply Hsize in Hacc.
    simpl in *. split; lia.
  - intros l w d w1 x lf wf Hlim Hf Hne l' Hlim' IH _.
    rewrite limit_reached_pos in Hlim'. apply IH. lia.
Qed.

(** Whatever the size of the pages: when the loop stops on the limit, the
page obtained last is the one that took the count to [L]. *)
Lemma scrapeLoop_last_page fuel l w x lf wf :
  scrapeLoop srv p (Some L) fuel l w = (x, lf, wf) ->
  totalFetched l < L ->
  x = Stop LimitReached ->
  exists new earlier pg,
    log wf = new ++ log w
    /\ pages p new = earlier ++ [pg]
    /\ totalFetched lf - Z.of_nat (length pg) < L <= totalFetched lf.
Proof.
  revert fuel l w x lf wf.
  apply (scrapeLoop_cases srv p (Some L)
           (fun l w x lf wf =>
              totalFetched l < L ->
              x = Stop LimitReached ->
              exists new earlier pg,
                log wf = new ++ log w
                /\ pages p new = earlier ++ [pg]
                /\ totalFetched lf - Z.of_nat (length pg) < L
                   <= totalFetched lf)).
  - done.
  - intros l w Hlim Hl _. rewrite limit_reached_pos in Hlim. lia.
  - done.
  - done.
  - intros l w d w1 _ Hf _ l' Hlim' Hl _.
    rewrite limit_reached_pos in Hlim'.
    apply fetchPageWithRetry_spec in Hf
      as (_ & _ & _ & _ & _ & (new & Hlog & _ & Hpg) & _).
    exists (EvSaveProgress (<[p := startAt l']> (progress w1)) :: new),
           [], (issues_of d).
    subst l'. simpl in *. rewrite Hlog, app_nil_r, (Hpg p). simpl.
    rewrite String.eqb_refl. splits; [done|done|lia|lia].
  - intros l w d w1 x lf wf _ Hf _ l' Hlim' IH _ Hx.
    rewrite limit_reached_pos in Hlim'.
    unfold l' in Hlim'. simpl in Hlim'.
    destruct IH as (new' & earlier & pg & Hlog' & Hpages' & Hb);
      [unfold l'; simpl; lia|done|].
    apply fetchPageWithRetry_spec in Hf
      as (_ & _ & _ & _ & _ & (new & Hlog & _ & Hpg) & _).
    exists (new' ++ EvSaveProgress (<[p := startAt l']> (progress w1)) :: new),
           (issues_of d :: earlier), pg.
    splits; try lia.
    + rewrite Hlog'. simpl. rewrite Hlog, <- app_assoc. done.
    + rewrite pages_app. simpl. rewrite app_nil_r, (Hpg p). simpl.
      by rewrite String.eqb_refl, Hpages'.
Qed.

(** A service whose every reply is a page of exactly 50 records: one GET
    per page, and the loop can only stop on the limit. *)
Lemma scrapeLoop_healthy fuel l w x lf wf :
  (forall n u, exists d, accepted (outcome (srv n u)) = Some d
                         /\ length (issues_of d) = 50%nat) ->
  scrapeLoop srv p (Some L) fuel l w = (x, lf, wf) ->
  exists new,
    log wf = new ++ log w
    /\ requests wf = (requests w + length (pages p new))%nat
    /\ Forall (fun pg => length pg = 50%nat) (pages p new)
    /\ (x = Interrupted \/ x = Stop LimitReached).
Proof.
  intros Hfull. revert fuel l w x lf wf.
  apply (scrapeLoop_cases srv p (Some L)
           (fun l w x lf wf =>
              exists new,
                log wf = new ++ log w
                /\ requests wf = (requests w + length (pages p new))%nat
                /\ Forall (fun pg => length pg = 50%nat) (pages p new)
                /\ (x = Interrupted \/ x = Stop LimitReached))).
  - intros l w. exists []. simpl. splits; auto; lia.
  - intros l w _. exists []. simpl. splits; auto; lia.
  - intros l w e w1 _ Hf.
    destruct (Hfull (requests w) (mkUrl p (startAt l))) as (d0 & Hacc & _).
    apply fetch_accepted_at_once in Hacc as (w1' & Hf' & _). congruence.
  - intros l w d w1 _ Hf Hempty.
    destruct (Hfull (requests w) (mkUrl p (startAt l))) as (d0 & Hacc & Hlen).
    apply fetch_accepted_at_once in Hacc as (w1' & Hf' & _).
    assert (d = d0) as -> by congruence. by rewrite Hempty in Hlen.
  - intros l w d w1 _ Hf _ l' _.
    destruct (Hfull (requests w) (mkUrl p (startAt l))) as (d0 & Hacc & Hlen).
    apply fetch_accepted_at_once in Hacc as (w1' & Hf' & Hq).
    assert (d = d0 /\ w1 = w1') as [-> ->] by (split; congruence).
    apply fetchPageWithRetry_spec in Hf
      as (_ & _ & _ & _ & _ & (new & Hlog & _ & Hpg) & _).
    exists (EvSaveProgress (<[p := startAt l']> (progress w1')) :: new).
    simpl. rewrite Hlog, app_nil_r, (Hpg p). simpl.
    rewrite String.eqb_refl. simpl.
    splits; auto; try lia; by repeat constructor.
  - intros l w d w1 x lf wf _ Hf _ l' _ (new' & Hlog' & Hq' & Hall' & Hx).
    destruct (Hfull (requests w) (mkUrl p (startAt l))) as (d0 & Hacc & Hlen).
    apply fetch_accepted_at_once in Hacc as (w1' & Hf' & Hq).
    assert (d = d0 /\ w1 = w1') as [-> ->] by (split; congruence).
    apply fetchPageWithRetry_spec in Hf
      as (_ & _ & _ & _ & _ & (new & Hlog & _ & Hpg) & _).
    exists (new' ++ EvSaveProgress (<[p := startAt l']> (progress w1')) :: new).
    simpl in *. rewrite pages_app. simpl.
    rewrite app_nil_r, (Hpg p), String.eqb_refl. simpl.
    splits; auto; try (constructor; done).
    + rewrite Hlog', Hlog, <- app_assoc. done.
    + rewrite Hq', Hq. simpl. lia.
Qed.

(** Pages of at least [m] records: [fuel] iterations are enough once
    [m * fuel] exceeds what is left to the limit. *)
Lemma scrapeLoop_finishes m fuel l w :
  1 <= m ->
  (forall n u d, accepted (outcome (srv n u)) = Some d ->
                 issues_of d <> [] ->
                 m <= Z.of_nat (length (issues_of d))) ->
  (0 < fuel)%nat ->
  L - totalFetched l < m * Z.of_nat fuel ->
  fst (fst (scrapeLoop srv p (Some L) fuel l w)) <> Interrupted.
Proof.
  intros Hm Hmin. revert l w.
  induction fuel as [|fuel IH]; intros l w Hfuel Hleft; [lia|].
  cbn [scrapeLoop].
  destruct (limit_reached (Some L) (totalFetched l)); [by cbn|].
  destruct (fetchPageWithRetry srv (mkUrl p (startAt l)) w)
    as [[d|e] w1] eqn:Hf; [|by cbn].
  apply fetchPageWithRetry_spec in Hf as (_ & _ & _ & _ & _ & _ & _ & Hsrc).
  destruct (Hsrc d eq_refl) as [n Hacc].
  pose proof (Hmin _ _ _ Hacc) as Hlen.
  destruct (issues_of d) as [|i page]; [by cbn|].
  specialize (Hlen ltac:(done)).
  cbn [length Nat.eqb totalFetched].
  destruct (limit_reached (Some L) _) eqn:Hlim'; [by cbn|].
  rewrite limit_reached_pos in Hlim'.
  destruct (Z.leb_spec L (totalFetched l + Z.of_nat (S (length page))));
    [done|].
  change (length (i :: page)) with (S (length page)) in Hlen.
  apply IH; cbn [totalFetched].
  - destruct fuel; [|lia]. simpl in *. lia.
  - lia.
Qed.

End Limit.

Lemma length_concat_uniform {A} (n : nat) (ls : list (list A)) :
  Forall (fun l => length l = n) ls ->
  length (concat ls) = (n * length ls)%nat
  /\ map length ls = repeat n (length ls).
Proof.
  induction 1 as [|l ls Hl _ [IH1 IH2]]; simpl; [split; [lia|done]|].
  rewrite length_app, IH1, IH2, Hl. split; [lia|done].
Qed.

(** C7.  With a limit [L > 0] and pages of at most 50 records, the loop
    keeps whole pages only (the records held are the pages obtained, end
    to end, and the cursor has advanced by their number), stops with fewer
    than [L + 50] records, and does stop within [L + 1] iterations; when
    it stops on the limit, the count is at least [L] and was below [L]
    before the last page.  With [L = 120] and every
    reply a page of exactly 50, it makes exactly three GETs, obtains pages
    of 50, 50 and 50 records and stops on the limit with 150. *)
Theorem limit_stops_after_a_whole_page srv p L fuel c w x lf wf :
  0 < L ->
  (forall n u d, accepted (outcome (srv n u)) = Some d ->
                 (length (issues_of d) <= 50)%nat) ->
  scrapeLoop srv p (Some L) fuel (mkLocals [] c 0) w = (x, lf, wf) ->
  exists new,
    log wf = new ++ log w
    /\ allIssues lf = concat (pages p new)
    /\ totalFetched lf = Z.of_nat (length (allIssues lf))
    /\ startAt lf = c + totalFetched lf
    /\ (c = cursor_of (progress w) p ->
        cursor_of (progress wf) p = c + totalFetched lf)
    /\ totalFetched lf < L + 50
    /\ (x = Stop LimitReached ->
        exists earlier pg,
          pages p new = earlier ++ [pg]
          /\ totalFetched lf - Z.of_nat (length pg) < L <= totalFetched lf)
    /\ (L < Z.of_nat fuel -> x <> Interrupted)
    /\ (L = 120 -> (3 <= fuel)%nat ->
        (forall n u, exists d, accepted (outcome (srv n u)) = Some d
                               /\ length (issues_of d) = 50%nat) ->
        x = Stop LimitReached
        /\ map length (pages p new) = [50; 50; 50]%nat
        /\ requests wf = (requests w + 3)%nat
        /\ totalFetched lf = 150).
Proof.
  intros HL Hsize Hloop.
  destruct (scrapeLoop_log _ _ _ _ _ _ _ _ _ Hloop)
    as (new & Hlog & _ & _ & Hall & Htot & Hst & _).
  simpl in Hall, Htot, Hst. fold (received p new).
  destruct (scrapeLoop_limit srv p L HL _ _ _ _ _ _ Hsize Hloop) as [Hlt Hge];
    [simpl; lia|].
  assert (Hnotcut : forall m,
             1 <= m ->
             (forall n u d, accepted (outcome (srv n u)) = Some d ->
                            issues_of d <> [] ->
                            m <= Z.of_nat (length (issues_of d))) ->
             (0 < fuel)%nat -> L < m * Z.of_nat fuel -> x <> Interrupted).
  { intros m Hm Hmin Hfuel Hleft.
    pose proof (scrapeLoop_finishes srv p L HL m fuel (mkLocals [] c 0) w
                  Hm Hmin Hfuel) as Hfin.
    rewrite Hloop in Hfin. apply Hfin. simpl. lia. }
  exists new. splits.
  - exact Hlog.
  - exact Hall.
  - rewrite Hall, Htot. lia.
  - rewrite Hst, Htot. lia.
  - intros Hc.
    destruct (scrapeLoop_tracked _ _ _ _ _ _ _ _ _ Hloop) as (Tst & _);
      [done|].
    rewrite <- Tst, Hst, Htot. lia.
  - exact Hlt.
  - intros Hx.
    destruct (scrapeLoop_last_page srv p L HL _ _ _ _ _ _ Hloop)
      as (new' & earlier & pg & Hlog' & Hpages & Hb); [simpl; lia|done|].
    assert (new' = new) as ->
      by (apply (app_inv_tail (log w)); congruence).
    by exists earlier, pg.
  - intros Hfuel. apply (Hnotcut 1); try lia.
    intros n u d _ Hne. destruct (issues_of d); [done|]. simpl. lia.
  - intros -> Hfuel Hfull.
    destruct (scrapeLoop_healthy srv p 120 _ _ _ _ _ _ Hfull Hloop)
      as (new' & Hlog' & Hq & Hpg & Hx).
    assert (new' = new) as ->
      by (apply (app_inv_tail (log w)); congruence).
    assert (Hstop : x = Stop LimitReached).
    { destruct Hx as [->|]; [|done]. exfalso.
      apply (Hnotcut 50); try lia; [|done].
      intros n u d Hacc _. destruct (Hfull n u) as (d' & Hacc' & Hlen).
      assert (d = d') as -> by congruence. lia. }
    destruct (length_concat_uniform 50 _ Hpg) as [Hlen Hmap].
    specialize (Hge Hstop). unfold received in Htot.
    assert (length (pages p new) = 3%nat) as Hthree by lia.
    rewrite Hthree in Hmap, Hq, Hlen.
    splits; try done. lia.
Qed.

Lemma limit_stops_after_a_whole_page_witness :
  let r := scrapeLoop endless SPARK (Some 120) 10 (mkLocals [] 0 0) fresh in
  exists new,
    log (snd r) = new ++ log fresh
    /\ fst (fst r) = Stop LimitReached
    /\ map length (pages SPARK new) = [50; 50; 50]%nat
    /\ requests (snd r) = (requests fresh + 3)%nat
    /\ totalFetched (snd (fst r)) = 150
    /\ totalFetched (snd (fst r)) < 120 + 50.
Proof.
  intros r.
  assert (Hfull : forall n u, exists d,
             accepted (outcome (endless n u)) = Some d
             /\ length (issues_of d) = 50%nat).
  { intros n u. eexists. split; reflexivity. }
  destruct (limit_stops_after_a_whole_page
              endless SPARK 120 10 0 fresh
              (fst (fst r)) (snd (fst r)) (snd r))
    as (new & Hlog & _ & _ & _ & _ & Hlt & _ & _ & H120).
  - lia.
  - intros n u d [= <-]. simpl. lia.
  - vm_compute. reflexivity.
  - destruct (H120 eq_refl ltac:(lia) Hfull) as (Hx & Hmap & Hq & Htot).
    exists new. splits; done.
Defined.

Lemma scrapeAll_log_grows cfg srv fuel ps w :
  exists new, log (snd (scrapeAll cfg srv fuel ps w)) = new ++ log w.
Proof.
  revert w. induction ps as [|p ps IH]; intros w; simpl.
  - by exists [].
  - destruct (scrapeProject cfg srv fuel p w) as [x w1] eqn:Hp.
    apply scrapeProject_spec in Hp as (new & Hlog & _).
    destruct x as [r|]; simpl.
    + destruct (IH w1) as [new' Hlog'].
      exists (new' ++ new). by rewrite Hlog', Hlog, app_assoc.
    + by exists new.
Qed.

Lemma scrapeAll_attempts_first cfg srv fuel q rest w :
  In (EvUI (MsgSection q)) (log (snd (scrapeAll cfg srv fuel (q :: rest) w))).
Proof.
  simpl. destruct (scrapeProject cfg srv fuel q w) as [x w1] eqn:Hp.
  apply scrapeProject_spec in Hp as (new & Hlog & Hin & _).
  assert (Hw1 : In (EvUI (MsgSection q)) (log w1))
    by (rewrite Hlog; apply in_or_app; by left).
  destruct x as [r|]; simpl; [|done].
  destruct (scrapeAll_log_grows cfg srv fuel rest w1) as [new' ->].
  apply in_or_app. by right.
Qed.

(** C8.  When a fetch throws (which it does only with its retries used
    up), the loop stops there with its variables as they were: nothing is
    added to the records held, and [progress] and progress.json stay as
    the last save left them.  The project's raw file then gets the whole
    pages obtained before, and [main] goes on to the next project. *)
Theorem fetch_failure_ends_only_this_project
    cfg srv fuel p rest l w e w1 :
  limit_reached (projectLimit_of cfg p) (totalFetched l) = false ->
  fetchPageWithRetry srv (mkUrl p (startAt l)) w = (Throw e, w1) ->
  let wf := ui (MsgFetchFailed (startAt l) e) w1 in
  scrapeLoop srv p (projectLimit_of cfg p) (S fuel) l w
  = (Stop FetchFailed, l, wf)
  /\ progress wf = progress w
  /\ progress_json wf = progress_json w
  /\ raw_dir wf = raw_dir w
  /\ (forall q, received q (log wf) = received q (log w))
  /\ (forall w0 wend,
        scrapeProject cfg srv (S fuel) p w0 = (Stop FetchFailed, wend) ->
        (exists new,
            log wend = new ++ log w0
            /\ raw_dir wend !! p = Some (received p new)
            /\ cursor_of (progress wend) p
               = cursor_of (progress w0) p
                 + Z.of_nat (length (received p new)))
        /\ scrapeAll cfg srv (S fuel) (p :: rest) w0
           = scrapeAll cfg srv (S fuel) rest wend
        /\ forall q rest',
             rest = q :: rest' ->
             In (EvUI (MsgSection q))
                (log (snd (scrapeAll cfg srv (S fuel) (p :: rest) w0)))).
Proof.
  intros Hlim Hf wf.
  assert (Hloop : scrapeLoop srv p (projectLimit_of cfg p) (S fuel) l w
                  = (Stop FetchFailed, l, wf))
    by (cbn [scrapeLoop]; rewrite Hlim, Hf; reflexivity).
  apply fetchPageWithRetry_spec in Hf
    as (Hpr & Hpj & Hraw & _ & _ & (new & Hlog & _ & Hpg) & _).
  splits; try done.
  - intros q. subst wf. unfold received. simpl.
    rewrite app_nil_r, Hlog, pages_app, Hpg.
    destruct (String.eqb _ _); simpl; by rewrite ?app_nil_r.
  - intros w0 wend Hp.
    assert (Hstep : scrapeAll cfg srv (S fuel) (p :: rest) w0
                    = scrapeAll cfg srv (S fuel) rest wend)
      by (cbn [scrapeAll]; rewrite Hp; reflexivity).
    splits.
    + apply scrapeProject_spec in Hp
        as (new0 & Hlog0 & _ & _ & Hraw0 & Hcur0 & _).
      exists new0. splits; [done| |done].
      rewrite Hraw0. apply lookup_insert_eq.
    + exact Hstep.
    + intros q rest' ->. rewrite Hstep. apply scrapeAll_attempts_first.
Qed.

Lemma fetch_failure_ends_only_this_project_witness :
  let cfg := mkConfig [SPARK; KAFKA] None None in
  let l := mkLocals [] 0 0 in
  let w := ui (MsgSection SPARK) fresh in
  let f := fetchPageWithRetry spark_down (mkUrl SPARK 0) w in
  let wf := ui (MsgFetchFailed 0 (AxiosError "ERR_BAD_RESPONSE" (Some 503)))
               (snd f) in
  scrapeLoop spark_down SPARK None 10 l w = (Stop FetchFailed, l, wf)
  /\ progress wf = progress w
  /\ progress_json wf = progress_json w
  /\ raw_dir wf = raw_dir w
  /\ (forall q, received q (log wf) = received q (log w))
  /\ (forall w0 wend,
        scrapeProject cfg spark_down 10 SPARK w0 = (Stop FetchFailed, wend) ->
        (exists new,
            log wend = new ++ log w0
            /\ raw_dir wend !! SPARK = Some (received SPARK new)
            /\ cursor_of (progress wend) SPARK
               = cursor_of (progress w0) SPARK
                 + Z.of_nat (length (received SPARK new)))
        /\ scrapeAll cfg spark_down 10 [SPARK; KAFKA] w0
           = scrapeAll cfg spark_down 10 [KAFKA] wend
        /\ forall q rest',
             [KAFKA] = q :: rest' ->
             In (EvUI (MsgSection q))
                (log (snd (scrapeAll cfg spark_down 10 [SPARK; KAFKA] w0)))).
Proof.
  apply (fetch_failure_ends_only_this_project
           (mkConfig [SPARK; KAFKA] None None) spark_down 9 SPARK [KAFKA]
           (mkLocals [] 0 0) (ui (MsgSection SPARK) fresh)
           (AxiosError "ERR_BAD_RESPONSE" (Some 503))
           (snd (fetchPageWithRetry spark_down (mkUrl SPARK 0)
                                    (ui (MsgSection SPARK) fresh)))).
  - reflexivity.
  - vm_compute. reflexivity.
Defined.

(** With SPARK down, [main] still brings in all of KAFKA; SPARK's file is
    written empty and no cursor is stored for it. *)
Example next_project_is_scraped_after_a_failure :
  let r := main (mkConfig [SPARK; KAFKA] None None) spark_down 10 fresh in
  fst r = true
  /\ raw_dir (snd r) !! SPARK = Some []
  /\ raw_dir (snd r) !! KAFKA = Some (seq 0 70)
  /\ progress (snd r) !! SPARK = None
  /\ progress (snd r) !! KAFKA = Some 70.
Proof. vm_compute. splits; reflexivity. Qed.

Lemma scrapeLoop_exhausted srv p limit fuel l w x lf wf :
  scrapeLoop srv p limit fuel l w = (x, lf, wf) ->
  exists new,
    log wf = new ++ log w
    /\ lf = after_page l (received p new)
    /\ (In [] (pages p new) ->
        x = Stop Exhausted /\ last (pages p new) = Some []).
Proof.
  revert fuel l w x lf wf.
  apply (scrapeLoop_cases srv p limit
           (fun l w x lf wf =>
              exists new,
                log wf = new ++ log w
                /\ lf = after_page l (received p new)
                /\ (In [] (pages p new) ->
                    x = Stop Exhausted /\ last (pages p new) = Some []))).
  - intros [a s t] w. exists []. unfold after_page. simpl.
    rewrite app_nil_r, !Z.add_0_r. by splits.
  - intros [a s t] w _. exists []. unfold after_page. simpl.
    rewrite app_nil_r, !Z.add_0_r. by splits.
  - intros [a s t] w e w1 _ Hf.
    apply fetchPageWithRetry_spec in Hf
      as (_ & _ & _ & _ & _ & (new & Hlog & _ & Hpg) & _).
    exists (EvUI (MsgFetchFailed s e) :: new).
    unfold after_page, received. simpl. rewrite Hlog, (Hpg p). simpl.
    rewrite String.eqb_refl. simpl. rewrite app_nil_r, !Z.add_0_r.
    by splits.
  - intros [a s t] w d w1 _ Hf Hempty.
    apply fetchPageWithRetry_spec in Hf
      as (_ & _ & _ & _ & _ & (new & Hlog & _ & Hpg) & _).
    exists new. unfold after_page, received. rewrite (Hpg p). simpl.
    rewrite String.eqb_refl. simpl. rewrite Hempty. simpl.
    rewrite app_nil_r, !Z.add_0_r. by splits.
  - intros l w d w1 _ Hf Hne l' _.
    apply fetchPageWithRetry_spec in Hf
      as (_ & _ & _ & _ & _ & (new & Hlog & _ & Hpg) & _).
    exists (EvSaveProgress (<[p := startAt l']> (progress w1)) :: new).
    unfold received. simpl. rewrite Hlog, (Hpg p). simpl.
    rewrite String.eqb_refl. simpl. rewrite !app_nil_r.
    splits; [done|done|]. intros [Hin|[]]. by destruct Hne.
  - intros l w d w1 x lf wf _ Hf Hne l' _ (new' & Hlog' & Hlf' & Hex').
    apply fetchPageWithRetry_spec in Hf
      as (_ & _ & _ & _ & _ & (new & Hlog & _ & Hpg) & _).
    exists (new' ++ EvSaveProgress (<[p := startAt l']> (progress w1)) :: new).
    assert (Hpages : pages p (new' ++ EvSaveProgress
                                (<[p := startAt l']> (progress w1)) :: new)
                     = issues_of d :: pages p new').
    { rewrite pages_app. simpl. rewrite (Hpg p). simpl.
      by rewrite String.eqb_refl. }
    unfold received. rewrite Hpages. simpl. splits.
    + rewrite Hlog'. simpl. rewrite Hlog, <- app_assoc. done.
    + rewrite Hlf'. subst l'. unfold after_page, received. simpl.
      rewrite !length_app, <- !app_assoc. f_equal; lia.
    + intros [Hin|Hin]; [by destruct Hne|].
      destruct (Hex' Hin) as [-> Hlast]. split; [done|].
      destruct (pages p new'); [done|]. exact Hlast.
Qed.

(** The step itself: an empty page breaks out at once, before the limit
    is looked at again. *)
Lemma empty_page_breaks_at_once srv p limit fuel l w d w1 :
  limit_reached limit (totalFetched l) = false ->
  fetchPageWithRetry srv (mkUrl p (startAt l)) w = (Return d, w1) ->
  issues_of d = [] ->
  scrapeLoop srv p limit (S fuel) l w = (Stop Exhausted, l, w1).
Proof.
  intros Hlim Hf Hempty. cbn [scrapeLoop]. by rewrite Hlim, Hf, Hempty.
Qed.

(** C10.  Whenever an empty page is obtained during a run of the loop,
    with or without a limit and whatever had been fetched before, the loop
    ends with [Exhausted] and that page is the last one it obtained. *)
Theorem empty_page_ends_the_loop srv p limit fuel l w x lf wf new :
  scrapeLoop srv p limit fuel l w = (x, lf, wf) ->
  log wf = new ++ log w ->
  In [] (pages p new) ->
  x = Stop Exhausted
  /\ last (pages p new) = Some []
  /\ lf = after_page l (received p new).
Proof.
  intros Hloop Hlog Hin.
  apply scrapeLoop_exhausted in Hloop as (new' & Hlog' & Hlf & Hex).
  assert (new' = new) as ->
    by (apply (app_inv_tail (log w)); congruence).
  destruct (Hex Hin). by splits.
Qed.

Lemma empty_page_ends_the_loop_witness :
  let r := scrapeLoop (tracker 70) SPARK (Some 1000) 10 (mkLocals [] 0 0)
                      fresh in
  fst (fst r) = Stop Exhausted
  /\ last (pages SPARK (log (snd r))) = Some []
  /\ snd (fst r) = after_page (mkLocals [] 0 0) (received SPARK (log (snd r))).
Proof.
  intros r.
  apply (empty_page_ends_the_loop (tracker 70) SPARK (Some 1000) 10
           (mkLocals [] 0 0) fresh
           (fst (fst r)) (snd (fst r)) (snd r) (log (snd r))).
  - vm_compute. reflexivity.
  - vm_compute. reflexivity.
  - vm_compute. right. right. left. reflexivity.
Defined.

(** ** The fetcher, further *)

(** X1.  With the clock not behind [lastRequestTime], the rate limiter
    waits at most one interval, ends no sooner than one interval after the
    request before, records the grant time, and does not wait at all once
    an interval has gone by. *)
Theorem rateLimit_waits_at_most_one_interval w :
  lastRequestTime w <= clock w ->
  let w1 := rateLimit w in
  clock w <= clock w1 <= clock w + 200
  /\ lastRequestTime w + 200 <= clock w1
  /\ lastRequestTime w1 = clock w1
  /\ (200 <= clock w - lastRequestTime w ->
      clock w1 = clock w /\ log w1 = log w).
Proof.
  intros Hle. unfold rateLimit, MIN_REQUEST_INTERVAL.
  destruct (Z.ltb_spec (clock w - lastRequestTime w) 200) as [Hlt|Hge]; simpl.
  - rewrite timer_ms_id by (unfold JS.TIMEOUT_MAX; lia).
    splits; lia.
  - splits; try lia. done.
Qed.

Lemma rateLimit_waits_at_most_one_interval_witness :
  let w := set_lastRequestTime 1699999999950 fresh in
  let w1 := rateLimit w in
  clock w <= clock w1 <= clock w + 200
  /\ lastRequestTime w + 200 <= clock w1
  /\ lastRequestTime w1 = clock w1
  /\ (200 <= clock w - lastRequestTime w ->
      clock w1 = clock w /\ log w1 = log w).
Proof.
  apply (rateLimit_waits_at_most_one_interval
           (set_lastRequestTime 1699999999950 fresh)).
  simpl. lia.
Defined.

(** X2.  A fetch, however it ends, leaves [progress], progress.json and the
    raw files as they were, and logs no write. *)
Theorem fetch_touches_no_file srv url w :
  let w1 := snd (fetchPageWithRetry srv url w) in
  progress w1 = progress w
  /\ progress_json w1 = progress_json w
  /\ raw_dir w1 = raw_dir w
  /\ exists new, log w1 = new ++ log w /\ Forall no_store new.
Proof.
  intros w1.
  destruct (fetchPageWithRetry_spec srv url w _ _ (surjective_pairing _))
    as (Hp & Hj & Hr & _ & _ & (new & Hlog & Hns & _) & _).
  splits; try done. by exists new.
Qed.

Lemma refused_attempt_throws srv url w :
  accepted (outcome (srv (requests w) url)) = None ->
  exists e w1, attempt srv url w = (Throw e, w1)
               /\ requests w1 = S (requests w).
Proof.
  intros Hacc. destruct (attempt srv url w) as [r w1] eqn:Ha.
  apply attempt_spec in Ha as (_ & _ & _ & Hq & _ & _ & _ & _ & Hres).
  simpl in Hres. rewrite Hacc in Hres. destruct Hres as [e ->]. eauto.
Qed.

Lemma pRetry_from_recovers srv url k :
  forall n a w d,
    (k <= n)%nat ->
    refused_run srv url (requests w) k ->
    accepted (outcome (srv (requests w + k)%nat url)) = Some d ->
    exists w1,
      pRetry_from retry_options (attempt srv url) n a w = (Return d, w1)
      /\ requests w1 = (requests w + k + 1)%nat.
Proof.
  induction k as [|k IH]; intros n a w d Hk Hrun Hacc.
  - rewrite Nat.add_0_r in Hacc.
    destruct (attempt srv url w) as [r w1] eqn:Ha.
    pose proof Ha as Ha'.
    apply attempt_spec in Ha' as (_ & _ & _ & Hq & _ & _ & _ & _ & Hres).
    simpl in Hres. rewrite Hacc in Hres. subst r.
    exists w1. split; [|lia].
    destruct n; simpl; by rewrite Ha.
  - destruct n as [|n]; [lia|].
    assert (H0 : accepted (outcome (srv (requests w) url)) = None).
    { specialize (Hrun 0%nat ltac:(lia)). by rewrite Nat.add_0_r in Hrun. }
    destruct (refused_attempt_throws srv url w H0) as (e & w0 & Ha & Hq).
    simpl. rewrite Ha.
    set (w' := delay (Some (backoffDelay retry_options a))
                     (onFailedAttempt a (S n) w0)).
    assert (Hq' : requests w' = S (requests w)) by (subst w'; simpl; done).
    destruct (IH n (S a) w' d) as (w1 & Hrec & Hq1).
    + lia.
    + intros i Hi. rewrite Hq'.
      specialize (Hrun (S i) ltac:(lia)).
      by replace (S (requests w) + i)%nat with (requests w + S i)%nat by lia.
    + rewrite Hq'.
      by replace (S (requests w) + k)%nat with (requests w + S k)%nat by lia.
    + exists w1. split; [done|]. lia.
Qed.

(** X3.  Up to five refused replies in a row are taken up by the retries:
    when the reply after them is let through, the fetch returns its body,
    having issued one GET more than there were refusals. *)
Theorem fetch_recovers_after_refusals srv url w k d :
  (k <= 5)%nat ->
  refused_run srv url (requests w) k ->
  accepted (outcome (srv (requests w + k)%nat url)) = Some d ->
  exists w1,
    fetchPageWithRetry srv url w = (Return d, w1)
    /\ requests w1 = (requests w + k + 1)%nat.
Proof.
  intros Hk Hrun Hacc. unfold fetchPageWithRetry, pRetry.
  by apply pRetry_from_recovers.
Qed.

Lemma fetch_recovers_after_refusals_witness :
  exists w1,
    fetchPageWithRetry throttled_once (mkUrl SPARK 0) fresh
    = (Return (mkBody (Some (seq 0 50))), w1)
    /\ requests w1 = (requests fresh + 1 + 1)%nat.
Proof.
  apply (fetch_recovers_after_refusals throttled_once (mkUrl SPARK 0) fresh 1).
  - lia.
  - intros i Hi. assert (i = 0%nat) as -> by lia. reflexivity.
  - reflexivity.
Defined.

Lemma attempt_throws_surfaced srv url w e w1 :
  attempt srv url w = (Throw e, w1) -> surfaced e.
Proof.
  unfold attempt.
  set (reply := srv (requests (rateLimit w)) url).
  set (w2 := send url reply (rateLimit w)).
  unfold try_block, axios_get.
  destruct (outcome reply) as [resp|code].
  - destruct (validateStatus (status resp)) eqn:Hv.
    + destruct (Z.eqb_spec (status resp) 429) as [H429|H429].
      * intros [= <- _]. done.
      * destruct (Z.leb_spec 500 (status resp)).
        { unfold validateStatus in Hv.
          destruct (Z.ltb_spec (status resp) 500); [lia|].
          destruct (Z.eqb_spec (status resp) 429); [lia|done]. }
        destruct (data resp); [done|]. intros [= <- _]. done.
    + intros [= <- _]. reflexivity.
  - intros [= <- _]. unfold catch_block. simpl.
    destruct (is_network_code code) eqn:Hc; simpl; done.
Qed.

Lemma pRetry_from_throws_surfaced srv url n :
  forall a w e w1,
    pRetry_from retry_options (attempt srv url) n a w = (Throw e, w1) ->
    surfaced e.
Proof.
  induction n as [|n IH]; intros a w e w1; simpl;
    destruct (attempt srv url w) as [[d|e0] w0] eqn:Ha; try done.
  - intros [= <- _]. by eapply attempt_throws_surfaced.
  - apply IH.
Qed.

(** X4.  The error a fetch ends with is one the [catch] block lets out:
    'Rate limited', 'Empty response', a network error with one of the three
    codes, or an axios error with any other code.  It is never the
    'Server error' of the [status >= 500] test, which no response reaches,
    and never an axios error still carrying a network code. *)
Theorem fetch_throws_only_surfaced_errors srv url w e w1 :
  fetchPageWithRetry srv url w = (Throw e, w1) ->
  surfaced e
  /\ (forall st, e <> ServerError st)
  /\ (forall c st, e = AxiosError c st -> is_network_code c = false).
Proof.
  intros Hf. apply pRetry_from_throws_surfaced in Hf.
  splits; [done| |].
  - intros st ->. done.
  - intros c st ->. done.
Qed.

Lemma fetch_throws_only_surfaced_errors_witness :
  surfaced (AxiosError "ERR_BAD_RESPONSE" (Some 503))
  /\ (forall st, AxiosError "ERR_BAD_RESPONSE" (Some 503) <> ServerError st)
  /\ (forall c st, AxiosError "ERR_BAD_RESPONSE" (Some 503) = AxiosError c st ->
                   is_network_code c = false).
Proof.
  apply (fetch_throws_only_surfaced_errors unavailable (mkUrl SPARK 0) fresh
           (AxiosError "ERR_BAD_RESPONSE" (Some 503))
           (snd (fetchPageWithRetry unavailable (mkUrl SPARK 0) fresh))).
  vm_compute. reflexivity.
Defined.

Lemma attempt_clock srv url w :
  clock w <= clock (snd (attempt srv url w)).
Proof.
  destruct (attempt srv url w) as [r w1] eqn:Ha. simpl.
  apply attempt_spec in Ha as (_ & _ & _ & _ & _ & Hc & _).
  destruct (rateLimit_spec w) as (_ & _ & _ & _ & _ & Hle & _).
  pose proof (serverDelay_nonneg (srv (requests w) url)). lia.
Qed.

Lemma pRetry_from_throw_clock srv url n :
  forall a w e w1,
    pRetry_from retry_options (attempt srv url) n a w = (Throw e, w1) ->
    clock w + backoff_total retry_options n a <= clock w1.
Proof.
  induction n as [|n IH]; intros a w e w1; simpl;
    pose proof (attempt_clock srv url w) as Hc;
    destruct (attempt srv url w) as [[d|e0] w0] eqn:Ha; try done;
    simpl in Hc.
  - intros [= _ <-]. simpl. lia.
  - intros Hrec. apply IH in Hrec. simpl in Hrec.
    rewrite timer_backoff in Hrec. lia.
Qed.

(** X5.  A fetch that ends in a throw has gone through all five backoff
    waits, 2 + 4 + 8 + 16 + 32 s: it gives up no sooner than 62 s after it
    was called. *)
Theorem failed_fetch_takes_at_least_62s srv url w e w1 :
  fetchPageWithRetry srv url w = (Throw e, w1) ->
  clock w + 62000 <= clock w1.
Proof.
  intros Hf. apply pRetry_from_throw_clock in Hf. exact Hf.
Qed.

Lemma failed_fetch_takes_at_least_62s_witness :
  clock fresh + 62000
  <= clock (snd (fetchPageWithRetry unavailable (mkUrl SPARK 0) fresh)).
Proof.
  apply (failed_fetch_takes_at_least_62s unavailable (mkUrl SPARK 0) fresh
           (AxiosError "ERR_BAD_RESPONSE" (Some 503))).
  vm_compute. reflexivity.
Defined.

(** ** The loop, further *)

Lemma scrapeLoop_zero_limit srv p fuel :
  forall l w,
    scrapeLoop srv p (Some 0) fuel l w = scrapeLoop srv p None fuel l w.
Proof.
  induction fuel as [|fuel IH]; intros l w; [done|].
  cbn [scrapeLoop]. change (limit_reached (Some 0) (totalFetched l)) with false.
  cbn [limit_reached].
  destruct (fetchPageWithRetry srv (mkUrl p (startAt l)) w) as [[d|e] w1];
    [|done].
  destruct (length (issues_of d) =? 0)%nat; [done|].
  change (limit_reached (Some 0) ?t) with false. cbn iota. apply IH.
Qed.

(** X6.  A limit of 0 is no limit: with [MAX_ISSUES] (or the project's own
    limit) at 0 a project is scraped exactly as with none. *)
Theorem zero_limit_is_no_limit srv fuel p w per :
  scrapeProject (mkConfig [p] (Some 0) None) srv fuel p w
  = scrapeProject (mkConfig [p] None None) srv fuel p w
  /\ scrapeProject (mkConfig [p] per (Some {[p := 0]})) srv fuel p w
     = scrapeProject (mkConfig [p] None None) srv fuel p w.
Proof.
  unfold scrapeProject, projectLimit_of. simpl.
  rewrite lookup_singleton_eq, scrapeLoop_zero_limit. done.
Qed.

(** X7.  A negative limit stops the loop before its first fetch: no GET is
    issued, the cursor stays, and the project's raw file is overwritten
    with an empty list. *)
Theorem negative_limit_fetches_nothing cfg srv fuel p w L :
  projectLimit_of cfg p = Some L ->
  L < 0 ->
  let wf := ui (MsgFinished p 0)
               (writeRaw p [] (ui (MsgSection p) w)) in
  scrapeProject cfg srv (S fuel) p w = (Stop LimitReached, wf)
  /\ requests wf = requests w
  /\ progress wf = progress w
  /\ progress_json wf = progress_json w
  /\ raw_dir wf !! p = Some [].
Proof.
  intros Hlim HL wf. unfold scrapeProject. rewrite Hlim. cbn [scrapeLoop].
  assert (Hr : limit_reached (Some L) 0 = true).
  { unfold limit_reached. destruct (Z.eqb_spec L 0); [lia|].
    destruct (Z.leb_spec L 0); [done|lia]. }
  cbn [totalFetched]. rewrite Hr. splits; try done.
  subst wf. simpl. apply lookup_insert_eq.
Qed.

Lemma negative_limit_fetches_nothing_witness :
  let w := resumed in
  let wf := ui (MsgFinished SPARK 0)
               (writeRaw SPARK [] (ui (MsgSection SPARK) w)) in
  scrapeProject (mkConfig [SPARK] (Some (-5)) None) (tracker 120) 10 SPARK w
  = (Stop LimitReached, wf)
  /\ requests wf = requests w
  /\ progress wf = progress w
  /\ progress_json wf = progress_json w
  /\ raw_dir wf !! SPARK = Some [].
Proof.
  apply (negative_limit_fetches_nothing
           (mkConfig [SPARK] (Some (-5)) None) (tracker 120) 9 SPARK resumed
           (-5)).
  - reflexivity.
  - lia.
Defined.




Lemma saved_cursors_app p new old :
  saved_cursors p (new ++ old) = saved_cursors p old ++ saved_cursors p new.
Proof.
  induction new as [|e new IH]; simpl; [by rewrite app_nil_r|].
  destruct e; try done. by rewrite IH, app_assoc.
Qed.

Lemma saved_cursors_no_store p evs :
  Forall no_store evs -> saved_cursors p evs = [].
Proof.
  induction 1 as [|e evs He _ IH]; simpl; [done|]. by destruct e.
Qed.

Lemma scrapeLoop_saves srv p limit fuel l w x lf wf :
  scrapeLoop srv p limit fuel l w = (x, lf, wf) ->
  exists new,
    log wf = new ++ log w
    /\ length (saved_cursors p new) = length (nonempty_pages p new).
Proof.
  revert fuel l w x lf wf.
  apply (scrapeLoop_cases srv p limit
           (fun l w x lf wf =>
              exists new,
                log wf = new ++ log w
                /\ length (saved_cursors p new)
                   = length (nonempty_pages p new))).
  - intros l w. by exists [].
  - intros l w _. by exists [].
  - intros l w e w1 _ Hf.
    apply fetchPageWithRetry_spec in Hf
      as (_ & _ & _ & _ & _ & (new & Hlog & Hns & Hpg) & _).
    exists (EvUI (MsgFetchFailed (startAt l) e) :: new).
    unfold nonempty_pages. simpl. rewrite Hlog, app_nil_r, (Hpg p).
    rewrite saved_cursors_no_store by done. simpl.
    by rewrite String.eqb_refl.
  - intros l w d w1 _ Hf Hempty.
    apply fetchPageWithRetry_spec in Hf
      as (_ & _ & _ & _ & _ & (new & Hlog & Hns & Hpg) & _).
    exists new. unfold nonempty_pages. rewrite (Hpg p).
    rewrite saved_cursors_no_store by done. simpl.
    rewrite String.eqb_refl. simpl. rewrite Hempty.
    rewrite filter_cons_False by (intros H; by apply H). done.
  - intros l w d w1 _ Hf Hne l' _.
    apply fetchPageWithRetry_spec in Hf
      as (_ & _ & _ & _ & _ & (new & Hlog & Hns & Hpg) & _).
    exists (EvSaveProgress (<[p := startAt l']> (progress w1)) :: new).
    unfold nonempty_pages. simpl. rewrite Hlog, app_nil_r, (Hpg p).
    rewrite saved_cursors_no_store by done. simpl.
    rewrite String.eqb_refl. simpl.
    rewrite filter_cons_True by done. done.
  - intros l w d w1 x lf wf _ Hf Hne l' _ (new' & Hlog' & Hcount).
    apply fetchPageWithRetry_spec in Hf
      as (_ & _ & _ & _ & _ & (new & Hlog & Hns & Hpg) & _).
    exists (new' ++ EvSaveProgress (<[p := startAt l']> (progress w1)) :: new).
    split; [rewrite Hlog'; simpl; rewrite Hlog, <- app_assoc; done|].
    unfold nonempty_pages in *.
    rewrite saved_cursors_app, pages_app. simpl.
    rewrite app_nil_r, (Hpg p), saved_cursors_no_store by done. simpl.
    rewrite String.eqb_refl. simpl.
    rewrite filter_cons_True by done. simpl.
    rewrite ?length_app. simpl. lia.
Qed.

(** X9.  The loop writes progress.json once for every page that brought
    records and at no other time, and writes no raw file itself. *)
Theorem progress_is_saved_once_per_page srv p limit fuel l w x lf wf new :
  scrapeLoop srv p limit fuel l w = (x, lf, wf) ->
  log wf = new ++ log w ->
  length (saved_cursors p new) = length (nonempty_pages p new)
  /\ Forall no_raw new.
Proof.
  intros Hloop Hlog.
  destruct (scrapeLoop_saves _ _ _ _ _ _ _ _ _ Hloop) as (new1 & Hlog1 & Hc).
  destruct (scrapeLoop_log _ _ _ _ _ _ _ _ _ Hloop) as (new2 & Hlog2 & Hnr & _).
  assert (new1 = new) as -> by (apply (app_inv_tail (log w)); congruence).
  assert (new2 = new) as -> by (apply (app_inv_tail (log w)); congruence).
  done.
Qed.

Lemma progress_is_saved_once_per_page_witness :
  let r := scrapeLoop (tracker 120) SPARK None 10 (mkLocals [] 0 0) fresh in
  length (saved_cursors SPARK (log (snd r)))
  = length (nonempty_pages SPARK (log (snd r)))
  /\ Forall no_raw (log (snd r)).
Proof.
  intros r.
  apply (progress_is_saved_once_per_page (tracker 120) SPARK None 10
           (mkLocals [] 0 0) fresh (fst (fst r)) (snd (fst r)) (snd r)
           (log (snd r))).
  - vm_compute. reflexivity.
  - vm_compute. reflexivity.
Defined.



(** The killed run above had obtained 50 records. *)
Example killed_run_had_records :
  let wf := snd (scrapeProject (mkConfig [SPARK] None None) (tracker 120) 1
                               SPARK fresh) in
  cursor_of (progress wf) SPARK = 50 /\ raw_dir wf !! SPARK = None.
Proof. vm_compute. split; reflexivity. Qed.

(** X11.  When the first page of a run comes back empty (as on a project
    already scraped to its end), the run stops as exhausted with the cursor
    where it was, and overwrites the project's raw file with an empty
    list. *)
Theorem empty_first_page_empties_the_raw_file cfg srv fuel p w d :
  limit_reached (projectLimit_of cfg p) 0 = false ->
  accepted (outcome (srv (requests w) (mkUrl p (cursor_of (progress w) p))))
  = Some d ->
  issues_of d = [] ->
  exists wf,
    scrapeProject cfg srv (S fuel) p w = (Stop Exhausted, wf)
    /\ raw_dir wf !! p = Some []
    /\ progress wf = progress w
    /\ progress_json wf = progress_json w.
Proof.
  intros Hlim Hacc Hempty. unfold scrapeProject. cbn [scrapeLoop].
  cbn [totalFetched startAt]. rewrite Hlim.
  change (progress (ui (MsgSection p) w)) with (progress w).
  destruct (fetch_accepted_at_once srv
              (mkUrl p (cursor_of (progress w) p)) (ui (MsgSection p) w) d)
    as (w1 & Hf & _); [exact Hacc|].
  rewrite Hf, Hempty. cbn [length Nat.eqb allIssues].
  apply fetchPageWithRetry_spec in Hf as (Hpr & Hpj & _).
  eexists. split; [reflexivity|]. simpl. splits; try done.
  apply lookup_insert_eq.
Qed.

Lemma empty_first_page_empties_the_raw_file_witness :
  exists wf,
    scrapeProject (mkConfig [SPARK] None None) (tracker 50) 10 SPARK resumed
    = (Stop Exhausted, wf)
    /\ raw_dir wf !! SPARK = Some []
    /\ progress wf = progress resumed
    /\ progress_json wf = progress_json resumed.
Proof.
  apply (empty_first_page_empties_the_raw_file
           (mkConfig [SPARK] None None) (tracker 50) 9 SPARK resumed
           (mkBody (Some []))).
  - reflexivity.
  - vm_compute. reflexivity.
  - reflexivity.
Defined.

Lemma tracker_accepted total n u :
  accepted (outcome (tracker total n u))
  = Some (mkBody (Some (seq (Z.to_nat (url_startAt u))
                            (Nat.min 50 (total - Z.to_nat (url_startAt u)))))).
Proof. reflexivity. Qed.

Lemma scrapeLoop_tracker p total fuel :
  forall c l w,
    startAt l = Z.of_nat c ->
    (c <= total)%nat ->
    ((total - c + 49) / 50 + 1 <= fuel)%nat ->
    exists lf wf,
      scrapeLoop (tracker total) p None fuel l w = (Stop Exhausted, lf, wf)
      /\ allIssues lf = allIssues l ++ seq c (total - c)
      /\ startAt lf = Z.of_nat total.
Proof.
  induction fuel as [|fuel IH]; intros c l w Hst Hc Hfuel; [lia|].
  cbn [scrapeLoop limit_reached].
  destruct (fetch_accepted_at_once (tracker total) (mkUrl p (startAt l)) w _
              (tracker_accepted total _ _)) as (w1 & Hf & _).
  rewrite Hf. cbn [issues_of issues url_startAt].
  rewrite Hst, Nat2Z.id, length_seq.
  destruct (Nat.min 50 (total - c)) as [|m] eqn:Hmin.
  - cbn [Nat.eqb]. assert (c = total) as -> by lia.
    exists l, w1. rewrite Nat.sub_diag. simpl. by rewrite app_nil_r.
  - cbn [Nat.eqb].
    set (l' := mkLocals _ _ _). set (w2 := saveProgress _ _ _).
    destruct (IH (c + S m)%nat l' w2) as (lf & wf & Hloop & Hall & Hend).
    + subst l'. simpl. lia.
    + lia.
    + assert (Hdiv : forall a, ((a + 50) / 50 = a / 50 + 1)%nat).
      { intros a. replace (a + 50)%nat with (a + 1 * 50)%nat by lia.
        by rewrite Nat.div_add. }
      destruct (Nat.le_gt_cases 50 (total - c)) as [Hbig|Hsmall].
      * assert (S m = 50%nat) as Hm by lia. rewrite Hm.
        replace (total - c + 49)%nat with ((total - (c + 50) + 49) + 50)%nat
          in Hfuel by lia.
        rewrite Hdiv in Hfuel. lia.
      * assert (S m = (total - c)%nat) as Hm by lia. rewrite Hm.
        replace (total - (c + (total - c)) + 49)%nat with 49%nat by lia.
        assert (1 <= (total - c + 49) / 50)%nat.
        { replace (total - c + 49)%nat with ((total - c - 1) + 50)%nat by lia.
          rewrite Hdiv. lia. }
        change (49 / 50)%nat with 0%nat. lia.
    + exists lf, wf. split; [exact Hloop|]. split; [|done].
      rewrite Hall. subst l'. simpl. rewrite <- app_assoc. f_equal.
      replace (total - c)%nat with (S m + (total - (c + S m)))%nat by lia.
      rewrite seq_app. done.
Qed.

(** X12.  Against a tracker that holds [total] issues and serves them 50
    at a time, an unlimited run started at cursor [c] ends as exhausted
    with every issue from [c] on in the raw file, each once and in order,
    and the cursor at [total]. *)
Theorem full_run_collects_every_issue cfg p total fuel c w :
  projectLimit_of cfg p = None ->
  cursor_of (progress w) p = Z.of_nat c ->
  (c <= total)%nat ->
  ((total - c + 49) / 50 + 1 <= fuel)%nat ->
  exists wf,
    scrapeProject cfg (tracker total) fuel p w = (Stop Exhausted, wf)
    /\ raw_dir wf !! p = Some (seq c (total - c))
    /\ cursor_of (progress wf) p = Z.of_nat total.
Proof.
  intros Hlim Hcur Hc Hfuel. unfold scrapeProject. rewrite Hlim.
  set (w0 := ui (MsgSection p) w).
  set (l0 := mkLocals [] (cursor_of (progress w0) p) 0).
  destruct (scrapeLoop_tracker p total fuel c l0 w0)
    as (lf & wf & Hloop & Hall & Hend); try done.
  rewrite Hloop. eexists. split; [reflexivity|]. simpl. split.
  - rewrite lookup_insert_eq, Hall. done.
  - destruct (scrapeLoop_tracked _ _ _ _ _ _ _ _ _ Hloop) as (Tst & _);
      [done|].
    by rewrite <- Tst.
Qed.

Lemma full_run_collects_every_issue_witness :
  exists wf,
    scrapeProject (mkConfig [SPARK] None None) (tracker 120) 10 SPARK resumed
    = (Stop Exhausted, wf)
    /\ raw_dir wf !! SPARK = Some (seq 50 (120 - 50))
    /\ cursor_of (progress wf) SPARK = Z.of_nat 120.
Proof.
  apply (full_run_collects_every_issue
           (mkConfig [SPARK] None None) SPARK 120 10 50 resumed).
  - reflexivity.
  - reflexivity.
  - lia.
  - vm_compute. lia.
Defined.

Lemma scrapeLoop_fuel_split srv p limit k m :
  forall l w,
    scrapeLoop srv p limit (k + m) l w
    = match scrapeLoop srv p limit k l w with
      | (Interrupted, l1, w1) => scrapeLoop srv p limit m l1 w1
      | r => r
      end.
Proof.
  induction k as [|k IH]; intros l w; [done|].
  cbn [Nat.add scrapeLoop].
  destruct (limit_reached limit (totalFetched l)); [done|].
  destruct (fetchPageWithRetry srv (mkUrl p (startAt l)) w) as [[d|e] w1];
    [|done].
  destruct (length (issues_of d) =? 0)%nat; [done|].
  destruct (limit_reached limit _); [done|]. apply IH.
Qed.

Lemma try_block_result reply w w' :
  fst (try_block reply w) = fst (try_block reply w').
Proof.
  unfold try_block. destruct (axios_get (outcome reply)) as [resp|e]; [|done].
  destruct (status resp =? 429); [done|].
  destruct (500 <=? status resp); [done|]. by destruct (data resp).
Qed.

Lemma attempt_result_stateless srv url w w' :
  stateless srv ->
  fst (attempt srv url w) = fst (attempt srv url w').
Proof.
  intros Hs. unfold attempt.
  rewrite (Hs (requests (rateLimit w))), (Hs (requests (rateLimit w'))).
  set (reply := srv 0%nat url).
  pose proof (try_block_result reply (send url reply (rateLimit w))
                (send url reply (rateLimit w'))) as H.
  destruct (try_block reply (send url reply (rateLimit w))) as [[d|e] w1],
           (try_block reply (send url reply (rateLimit w'))) as [[d'|e'] w1'];
    simpl in *; congruence.
Qed.

Lemma pRetry_from_result_stateless srv url n :
  stateless srv ->
  forall a a' w w',
    fst (pRetry_from retry_options (attempt srv url) n a w)
    = fst (pRetry_from retry_options (attempt srv url) n a' w').
Proof.
  intros Hs. induction n as [|n IH]; intros a a' w w'; simpl;
    pose proof (attempt_result_stateless srv url w w' Hs) as H;
    destruct (attempt srv url w) as [[d|e] w1],
             (attempt srv url w') as [[d'|e'] w1']; simpl in *;
    try congruence.
  apply IH.
Qed.

Lemma fetch_result_stateless srv url w w' :
  stateless srv ->
  fst (fetchPageWithRetry srv url w) = fst (fetchPageWithRetry srv url w').
Proof.
  intros Hs. unfold fetchPageWithRetry, pRetry.
  by apply pRetry_from_result_stateless.
Qed.

Lemma scrapeLoop_stateless srv p limit fuel :
  stateless srv -> unlimited limit ->
  forall l l' w w',
    startAt l = startAt l' ->
    let r := scrapeLoop srv p limit fuel l w in
    let r' := scrapeLoop srv p limit fuel l' w' in
    fst (fst r) = fst (fst r')
    /\ startAt (snd (fst r)) = startAt (snd (fst r'))
    /\ exists D, allIssues (snd (fst r)) = allIssues l ++ D
                 /\ allIssues (snd (fst r')) = allIssues l' ++ D.
Proof.
  intros Hs Hun. induction fuel as [|fuel IH]; intros l l' w w' Hst.
  - simpl. splits; [done|done|]. exists []. by rewrite !app_nil_r.
  - cbn [scrapeLoop]. rewrite !Hun, <- Hst.
    pose proof (fetch_result_stateless srv (mkUrl p (startAt l)) w w' Hs)
      as Hres.
    destruct (fetchPageWithRetry srv (mkUrl p (startAt l)) w) as [[d|e] w1],
             (fetchPageWithRetry srv (mkUrl p (startAt l)) w')
               as [[d'|e'] w1']; simpl in Hres; try congruence.
    + injection Hres as <-.
      destruct (length (issues_of d) =? 0)%nat.
      * simpl. splits; [done|done|]. exists []. by rewrite !app_nil_r.
      * set (n := Z.of_nat (length (issues_of d))).
        cbn [totalFetched startAt]. rewrite !Hun.
        destruct (IH (mkLocals (allIssues l ++ issues_of d) (startAt l + n)
                               (totalFetched l + n))
                     (mkLocals (allIssues l' ++ issues_of d) (startAt l + n)
                               (totalFetched l' + n))
                     (saveProgress p (startAt l + n) w1)
                     (saveProgress p (startAt l + n) w1') eq_refl)
          as (Hx & Hend & D & HD & HD').
        simpl in HD, HD'. splits; [done|done|].
        exists (issues_of d ++ D). by rewrite !app_assoc.
    + simpl. splits; [done|done|]. exists []. by rewrite !app_nil_r.
Qed.

(** X13.  Resuming is seamless for an unlimited run against a service
    whose replies depend on the URL alone: a loop killed after [k]
    iterations and started again at the cursor it had reached (in whatever
    world the new process finds) ends the way the uninterrupted loop of
    [k + m] iterations does, at the same cursor, and the records of the
    two parts, end to end, are the records of the uninterrupted run. *)
Theorem resumed_run_matches_uninterrupted srv p limit k m c w l1 w1 w2 :
  stateless srv ->
  unlimited limit ->
  scrapeLoop srv p limit k (mkLocals [] c 0) w = (Interrupted, l1, w1) ->
  let whole := scrapeLoop srv p limit (k + m) (mkLocals [] c 0) w in
  let rest := scrapeLoop srv p limit m (mkLocals [] (startAt l1) 0) w2 in
  fst (fst whole) = fst (fst rest)
  /\ startAt (snd (fst whole)) = startAt (snd (fst rest))
  /\ allIssues (snd (fst whole))
     = allIssues l1 ++ allIssues (snd (fst rest))
  /\ (c = cursor_of (progress w) p -> cursor_of (progress w1) p = startAt l1).
Proof.
  intros Hs Hun Hk whole rest.
  assert (Hwhole : whole = scrapeLoop srv p limit m l1 w1)
    by (subst whole; rewrite scrapeLoop_fuel_split, Hk; reflexivity).
  destruct (scrapeLoop_stateless srv p limit m Hs Hun
              l1 (mkLocals [] (startAt l1) 0) w1 w2 eq_refl)
    as (Hx & Hend & D & HD & HD').
  rewrite <- Hwhole in Hx, Hend, HD. fold rest in Hx, Hend, HD'.
  simpl in HD'. splits; [done|done|by rewrite HD, HD'|].
  intros Hc.
  destruct (scrapeLoop_tracked _ _ _ _ _ _ _ _ _ Hk) as (Tst & _); [done|].
  done.
Qed.

Lemma resumed_run_matches_uninterrupted_witness :
  let first := scrapeLoop (tracker 120) SPARK None 1 (mkLocals [] 0 0) fresh in
  let l1 := snd (fst first) in
  let whole := scrapeLoop (tracker 120) SPARK None (1 + 9) (mkLocals [] 0 0)
                          fresh in
  let rest := scrapeLoop (tracker 120) SPARK None 9
                         (mkLocals [] (startAt l1) 0) resumed in
  fst (fst whole) = fst (fst rest)
  /\ startAt (snd (fst whole)) = startAt (snd (fst rest))
  /\ allIssues (snd (fst whole))
     = allIssues l1 ++ allIssues (snd (fst rest))
  /\ (0 = cursor_of (progress fresh) SPARK ->
      cursor_of (progress (snd first)) SPARK = startAt l1).
Proof.
  intros first l1.
  apply (resumed_run_matches_uninterrupted (tracker 120) SPARK None 1 9 0
           fresh l1 (snd first) resumed).
  - intros n u. reflexivity.
  - intros t. reflexivity.
  - vm_compute. reflexivity.
Defined.

Lemma sections_app new old :
  sections (new ++ old) = sections old ++ sections new.
Proof.
  induction new as [|e new IH]; simpl; [by rewrite app_nil_r|].
  destruct e as [| |m| |]; try done. destruct m; try done.
  by rewrite IH, app_assoc.
Qed.

Lemma attempt_sections srv url w :
  sections (log (snd (attempt srv url w))) = sections (log w).
Proof.
  unfold attempt, rateLimit, try_block.
  destruct (_ <? _); simpl;
    destruct (axios_get _) as [resp|e]; simpl; try done;
    destruct (status resp =? 429); simpl; try done;
    destruct (500 <=? status resp); simpl; try done;
    destruct (data resp); done.
Qed.

Lemma pRetry_from_sections srv url n :
  forall a w,
    sections (log (snd (pRetry_from retry_options (attempt srv url) n a w)))
    = sections (log w).
Proof.
  induction n as [|n IH]; intros a w; simpl;
    pose proof (attempt_sections srv url w) as H;
    destruct (attempt srv url w) as [[d|e] w1]; simpl in *; try done.
  rewrite IH. simpl. done.
Qed.

Lemma scrapeLoop_sections srv p limit fuel l w x lf wf :
  scrapeLoop srv p limit fuel l w = (x, lf, wf) ->
  sections (log wf) = sections (log w).
Proof.
  revert fuel l w x lf wf.
  apply (scrapeLoop_cases srv p limit
           (fun l w x lf wf => sections (log wf) = sections (log w)));
    try done.
  - intros l w e w1 _ Hf. simpl.
    pose proof (pRetry_from_sections srv (mkUrl p (startAt l)) 5 1 w) as H.
    unfold fetchPageWithRetry, pRetry in Hf. simpl retries in Hf.
    by rewrite Hf in H.
  - intros l w d w1 _ Hf _.
    pose proof (pRetry_from_sections srv (mkUrl p (startAt l)) 5 1 w) as H.
    unfold fetchPageWithRetry, pRetry in Hf. simpl retries in Hf.
    by rewrite Hf in H.
  - intros l w d w1 _ Hf _ l' _. simpl.
    pose proof (pRetry_from_sections srv (mkUrl p (startAt l)) 5 1 w) as H.
    unfold fetchPageWithRetry, pRetry in Hf. simpl retries in Hf.
    by rewrite Hf in H.
  - intros l w d w1 x lf wf _ Hf _ l' _ IH. rewrite IH. simpl.
    pose proof (pRetry_from_sections srv (mkUrl p (startAt l)) 5 1 w) as H.
    unfold fetchPageWithRetry, pRetry in Hf. simpl retries in Hf.
    by rewrite Hf in H.
Qed.

Lemma scrapeProject_sections cfg srv fuel p w :
  sections (log (snd (scrapeProject cfg srv fuel p w)))
  = sections (log w) ++ [p].
Proof.
  unfold scrapeProject.
  destruct (scrapeLoop srv p (projectLimit_of cfg p) fuel _ _)
    as [[x lf] w1] eqn:Hloop.
  apply scrapeLoop_sections in Hloop. destruct x; simpl; by rewrite Hloop.
Qed.

Lemma scrapeAll_sections cfg srv fuel ps :
  forall w,
    let r := scrapeAll cfg srv fuel ps w in
    exists done_,
      sections (log (snd r)) = sections (log w) ++ done_
      /\ done_ `prefix_of` ps
      /\ (fst r = true -> done_ = ps).
Proof.
  induction ps as [|p ps IH]; intros w; simpl.
  - exists []. rewrite app_nil_r. by splits.
  - pose proof (scrapeProject_sections cfg srv fuel p w) as Hp.
    destruct (scrapeProject cfg srv fuel p w) as [[r|] w1]; simpl in *.
    + destruct (IH w1) as (rest & Hsec & Hpre & Hall).
      exists (p :: rest). splits.
      * rewrite Hsec, Hp, <- app_assoc. done.
      * by apply prefix_cons.
      * intros Ht. by rewrite (Hall Ht).
    + exists [p]. splits; [done| |done].
      apply prefix_cons, prefix_nil.
Qed.

(** X14.  [main] announces the projects in the order of [PROJECTS], each
    once and none other: all of them when it runs to its end, a prefix
    when the process is killed. *)
Theorem main_goes_through_projects_in_order cfg srv fuel now d pr :
  let r := main cfg srv fuel (boot now d pr) in
  sections (log (snd r)) `prefix_of` PROJECTS cfg
  /\ (fst r = true -> sections (log (snd r)) = PROJECTS cfg).
Proof.
  intros r. subst r. unfold main.
  destruct (scrapeAll_sections cfg srv fuel (PROJECTS cfg) (boot now d pr))
    as (done_ & Hsec & Hpre & Hall).
  simpl in Hsec. rewrite Hsec. split; [done|]. exact Hall.
Qed.

(** ** The command line *)

Lemma index_of_app_found x pre rest :
  ~ In x pre -> index_of x (pre ++ x :: rest) = Some (length pre).
Proof.
  induction pre as [|a pre IH]; intros Hnot; simpl.
  - by rewrite String.eqb_refl.
  - destruct (String.eqb_spec a x) as [->|Hne].
    + exfalso. apply Hnot. by left.
    + rewrite IH; [done|]. intros Hin. apply Hnot. by right.
Qed.

Lemma nth_error_after {A} (pre : list A) x v post :
  nth_error (pre ++ x :: v :: post) (S (length pre)) = Some v.
Proof. induction pre as [|a pre IH]; simpl; [done|exact IH]. Qed.

Lemma split_comma_nonempty s : split_comma s <> [].
Proof.
  induction s as [|c r IH]; simpl; [done|].
  destruct (Ascii.eqb c ","%char); [done|]. by destruct (split_comma r).
Qed.

Lemma split_comma_free s : comma_free s -> split_comma s = [s].
Proof.
  induction s as [|c r IH]; intros Hfree; simpl; [done|].
  destruct (Ascii.eqb_spec c ","%char) as [->|Hne].
  - exfalso. apply (Hfree ","%char); [by left|done].
  - rewrite IH; [done|]. intros c' Hin. apply Hfree. by right.
Qed.

Lemma split_comma_app_comma s t :
  comma_free s ->
  split_comma (s ++ String ","%char t) = s :: split_comma t.
Proof.
  induction s as [|c r IH]; intros Hfree; simpl; [done|].
  destruct (Ascii.eqb_spec c ","%char) as [->|Hne].
  - exfalso. apply (Hfree ","%char); [by left|done].
  - rewrite IH; [done|]. intros c' Hin. apply Hfree. by right.
Qed.

Lemma split_join_comma names :
  names <> [] -> Forall comma_free names ->
  split_comma (join_comma names) = names.
Proof.
  induction names as [|n rest IH]; intros Hne Hfree; [done|].
  apply Forall_cons in Hfree as [Hn Hrest].
  destruct rest as [|n' rest'].
  - simpl. by apply split_comma_free.
  - change (join_comma (n :: n' :: rest'))
      with (n ++ String ","%char (join_comma (n' :: rest')))%string.
    rewrite split_comma_app_comma by done. f_equal. by apply IH.
Qed.

Lemma join_comma_truthy names n rest :
  names = n :: rest -> n <> EmptyString ->
  JS.truthy_string (join_comma names) = true.
Proof.
  intros -> Hn. destruct n as [|c n']; [done|]. by destruct rest.
Qed.

(** X15.  Project names given after [--projects], joined by commas, come
    out as [PROJECTS] one for one and in order (the names being free of
    commas and the first not empty), wherever the flag stands. *)
Theorem projects_flag_round_trip pre post names first rest interactive :
  ~ In "--projects"%string pre ->
  names = first :: rest ->
  first <> EmptyString ->
  Forall comma_free names ->
  PROJECTS (loadConfig (pre ++ "--projects"%string :: join_comma names :: post)
                       interactive)
  = names.
Proof.
  intros Hpre Hnames Hfirst Hfree. unfold loadConfig.
  rewrite index_of_app_found by done. cbn [is_Some_bool negb].
  rewrite andb_false_r. cbn [andb arg_after].
  rewrite nth_error_after, (join_comma_truthy names first rest) by done.
  cbn [PROJECTS]. apply split_join_comma; [by subst|done].
Qed.

Lemma projects_flag_round_trip_witness :
  PROJECTS (loadConfig ("--no-interactive"%string
                          :: "--projects"%string :: join_comma [SPARK; KAFKA]
                          :: ["--limit"%string; "100"%string])
                       (mkConfig [] None None))
  = [SPARK; KAFKA].
Proof.
  apply (projects_flag_round_trip ["--no-interactive"%string]
           ["--limit"; "100"]%string [SPARK; KAFKA] SPARK [KAFKA]).
  - intros [H|[]]. discriminate.
  - reflexivity.
  - discriminate.
  - repeat constructor; intros c Hin Hc; subst c; vm_compute in Hin;
      repeat (destruct Hin as [Hin|Hin]; [discriminate|]); done.
Defined.



(** ** Text cleaning *)

Example cleanText_on_markup :
  Text.cleanText (Some (Text.units "  <p>See [the docs|http://x.y] and ask [~joe]</p>  "))
  = Text.units "See http://x.y and ask joe"
  /\ Text.cleanText (Some (Text.units "a <b>bold</b>  move")) = Text.units "a bold move"
  /\ Text.cleanText (Some (Text.units "[a|b|c] [x|] <> [~]")) = Text.units "c [x|] <> [~]"
  /\ Text.cleanText None = []
  /\ Text.cleanText (Some []) = [].
Proof. vm_compute. repeat split; reflexivity. Qed.

Module TextFacts.
Import Text.

Lemma find_lt ch s j : find ch s = Some j -> (j < length s)%nat.
Proof.
  revert j. induction s as [|c r IH]; intros j; simpl; [done|].
  destruct (c =? ch); [intros [= <-]; lia|].
  destruct (find ch r) as [k|]; simpl; [|done].
  intros [= <-]. specialize (IH k eq_refl). lia.
Qed.

Lemma run_le f s : (run f s <= length s)%nat.
Proof. induction s as [|c r IH]; simpl; [lia|]. destruct (f c); lia. Qed.

Lemma second_group_shorter inside content g2 :
  second_group inside content = Some g2 ->
  (length g2 < length content)%nat.
Proof.
  revert inside g2. induction content as [|c r IH]; intros inside g2; simpl;
    [done|].
  destruct (second_group true r) as [g|] eqn:Hg.
  - intros [= <-]. apply IH in Hg. lia.
  - destruct (inside && (c =? 124) && negb (bool_decide (r = [])));
      [|done].
    intros [= <-]. lia.
Qed.

Lemma tag_shrinking : shrinking tag.
Proof.
  intros s rep n. unfold tag. destruct s as [|c rest]; [done|].
  destruct (c =? 60); [|done].
  destruct (find 62 rest) as [[|j]|] eqn:Hf; try done.
  intros [= <- <-]. apply find_lt in Hf. simpl. lia.
Qed.

Lemma mention_shrinking : shrinking mention.
Proof.
  intros s rep n. unfold mention. destruct s as [|c1 [|c2 rest]]; try done.
  destruct ((c1 =? 91) && (c2 =? 126)); [|done].
  destruct (find 93 rest) as [[|j]|] eqn:Hf; try done.
  intros [= <- <-]. apply find_lt in Hf.
  rewrite length_take. cbn [length]. lia.
Qed.

Lemma link_shrinking : shrinking link.
Proof.
  intros s rep n. unfold link. destruct s as [|c rest]; [done|].
  destruct (c =? 91); [|done].
  destruct (find 93 rest) as [j|] eqn:Hf; [|done].
  destruct (second_group false (take j rest)) as [g2|] eqn:Hg; [|done].
  intros [= <- <-]. apply find_lt in Hf. apply second_group_shorter in Hg.
  rewrite length_take in Hg. cbn [length]. lia.
Qed.

Lemma newlines_shrinking : shrinking newlines.
Proof.
  intros s rep n. unfold newlines. pose proof (run_le is_nl s).
  destruct (run is_nl s) as [|k]; [done|].
  intros [= <- <-]. simpl. lia.
Qed.

Lemma spaces_shrinking : shrinking spaces.
Proof.
  intros s rep n. unfold spaces. pose proof (run_le is_ws s).
  destruct (run is_ws s) as [|[|k]]; try done.
  intros [= <- <-]. simpl. lia.
Qed.

Lemma replace_all_length m :
  shrinking m ->
  forall fuel s, (length (replace_all m fuel s) <= length s)%nat.
Proof.
  intros Hm. induction fuel as [|fuel IH]; intros s; simpl; [lia|].
  destruct s as [|c r]; [done|].
  destruct (m (c :: r)) as [[rep n]|] eqn:Hmatch.
  - destruct (Hm _ _ _ Hmatch) as [Hrep Hn].
    rewrite length_app. specialize (IH (drop n (c :: r))).
    rewrite length_drop in IH. lia.
  - simpl. specialize (IH r). lia.
Qed.

Lemma replace_all_Forall (P : Z -> Prop) m :
  (forall s rep n, Forall P s -> m s = Some (rep, n) -> Forall P rep) ->
  forall fuel s, Forall P s -> Forall P (replace_all m fuel s).
Proof.
  intros Hm. induction fuel as [|fuel IH]; intros s Hs; simpl; [done|].
  destruct s as [|c r]; [done|].
  destruct (m (c :: r)) as [[rep n]|] eqn:Hmatch.
  - apply Forall_app. split; [by eapply Hm|].
    apply IH. by apply Forall_drop.
  - apply Forall_cons in Hs as [Hc Hr]. constructor; [done|]. by apply IH.
Qed.

Lemma replace_all_none m fuel s :
  (forall k, m (drop k s) = None) -> replace_all m fuel s = s.
Proof.
  revert s. induction fuel as [|fuel IH]; intros s Hnone; simpl; [done|].
  destruct s as [|c r]; [done|].
  pose proof (Hnone 0%nat) as H0. rewrite drop_0 in H0. rewrite H0.
  f_equal. apply IH. intros k. exact (Hnone (S k)).
Qed.

Lemma no_nl_after_newlines fuel s :
  (length s <= fuel)%nat ->
  Forall (fun c => is_nl c = false) (replace_all newlines fuel s).
Proof.
  revert s. induction fuel as [|fuel IH]; intros s Hlen; simpl.
  - destruct s; [done|simpl in Hlen; lia].
  - destruct s as [|c r]; [done|].
    destruct (newlines (c :: r)) as [[rep n]|] eqn:Hmatch.
    + destruct (newlines_shrinking _ _ _ Hmatch) as [_ Hn].
      unfold newlines in Hmatch.
      destruct (run is_nl (c :: r)); [done|]. injection Hmatch as <- <-.
      cbn [app]. constructor; [done|]. apply IH.
      rewrite length_drop. simpl in *. lia.
    + constructor.
      * unfold newlines in Hmatch. simpl in Hmatch.
        destruct (is_nl c); [done|done].
      * apply IH. simpl in Hlen. lia.
Qed.

Lemma run_drop_stops f s :
  forall c r, drop (run f s) s = c :: r -> f c = false.
Proof.
  induction s as [|a s IH]; intros c r; simpl; [done|].
  destruct (f a) eqn:Ha; simpl.
  - apply IH.
  - intros [= <- _]. done.
Qed.

Lemma spaces_keeps_head fuel c r :
  is_ws c = false ->
  replace_all spaces (S fuel) (c :: r) = c :: replace_all spaces fuel r.
Proof. intros Hc. simpl. unfold spaces. simpl. by rewrite Hc. Qed.

Lemma no_ws_pair_after_spaces fuel s :
  (length s <= fuel)%nat ->
  no_ws_pair (replace_all spaces fuel s).
Proof.
  revert s. induction fuel as [|fuel IH]; intros s Hlen.
  - destruct s; [done|simpl in Hlen; lia].
  - destruct s as [|c r]; [done|].
    cbn [replace_all].
    destruct (spaces (c :: r)) as [[rep n]|] eqn:Hmatch.
    + destruct (spaces_shrinking _ _ _ Hmatch) as [_ Hn].
      unfold spaces in Hmatch.
      destruct (run is_ws (c :: r)) as [|[|k]] eqn:Hrun; try done.
      injection Hmatch as <- <-. cbn [app].
      assert (Hrest : (length (drop (S (S k)) (c :: r)) <= fuel)%nat)
        by (rewrite length_drop; simpl in *; lia).
      pose proof (IH _ Hrest) as Hno.
      destruct (drop (S (S k)) (c :: r)) as [|c' r'] eqn:Hdrop.
      * destruct fuel; done.
      * assert (Hc' : is_ws c' = false).
        { rewrite <- Hrun in Hdrop. by eapply run_drop_stops. }
        destruct fuel as [|fuel']; [simpl in Hrest; lia|].
        rewrite spaces_keeps_head in * by done.
        split; [|done]. by rewrite Hc', andb_false_r.
    + assert (Hr : (length r <= fuel)%nat) by (simpl in Hlen; lia).
      pose proof (IH _ Hr) as Hno.
      destruct r as [|c' r'].
      * destruct fuel; done.
      * destruct fuel as [|fuel']; [simpl in Hr; lia|].
        destruct (is_ws c') eqn:Hc'.
        -- (* then [c] is not white space, or the run would be matched *)
           assert (Hc : is_ws c = false).
           { unfold spaces in Hmatch. simpl in Hmatch.
             destruct (is_ws c); [|done]. by rewrite Hc' in Hmatch. }
           destruct (replace_all spaces (S fuel') (c' :: r')) as [|b t];
             [done|].
           split; [by rewrite Hc|done].
        -- rewrite spaces_keeps_head in * by done.
           split; [by rewrite Hc', andb_false_r|done].
Qed.

Lemma no_ws_pair_tail a s : no_ws_pair (a :: s) -> no_ws_pair s.
Proof. destruct s; simpl; tauto. Qed.

Lemma trim_start_suffix s : exists k, trim_start s = drop k s.
Proof.
  induction s as [|c r [k IH]]; simpl; [by exists 0%nat|].
  destruct (is_ws c); [by exists (S k)|by exists 0%nat].
Qed.

Lemma no_ws_pair_drop k s : no_ws_pair s -> no_ws_pair (drop k s).
Proof.
  revert s. induction k as [|k IH]; intros s Hs; [by rewrite drop_0|].
  destruct s as [|a s]; [done|]. simpl. apply IH. by eapply no_ws_pair_tail.
Qed.

Lemma trim_start_head s c t : trim_start s = c :: t -> is_ws c = false.
Proof.
  induction s as [|a r IH]; simpl; [done|].
  destruct (is_ws a) eqn:Ha; [done|]. by intros [= <- _].
Qed.

Lemma trim_end_head s c t : trim_end s = c :: t -> exists t0, s = c :: t0.
Proof.
  destruct s as [|a r]; simpl; [done|].
  destruct (trim_end r); [|intros [= <- _]; eauto].
  destruct (is_ws a); [done|]. intros [= <- _]. eauto.
Qed.

Lemma trim_end_no_ws_pair s : no_ws_pair s -> no_ws_pair (trim_end s).
Proof.
  induction s as [|c r IH]; intros Hs; [done|]. cbn [trim_end].
  destruct (trim_end r) as [|b t] eqn:Hr.
  - by destruct (is_ws c).
  - destruct (trim_end_head _ _ _ Hr) as [t0 ->].
    destruct Hs as [Hcb Hs]. split; [done|]. by apply IH.
Qed.

Lemma trim_end_last s c : last (trim_end s) = Some c -> is_ws c = false.
Proof.
  induction s as [|a r IH]; simpl; [done|].
  destruct (trim_end r) as [|b t] eqn:Hr.
  - destruct (is_ws a) eqn:Ha; [done|]. by intros [= <-].
  - intros Hl. apply IH. by rewrite last_cons_cons in Hl.
Qed.

Lemma trim_start_Forall (P : Z -> Prop) s :
  Forall P s -> Forall P (trim_start s).
Proof.
  destruct (trim_start_suffix s) as [k ->]. apply Forall_drop.
Qed.

Lemma trim_end_Forall (P : Z -> Prop) s :
  Forall P s -> Forall P (trim_end s).
Proof.
  induction 1 as [|c r Hc Hr IH]; simpl; [done|].
  destruct (trim_end r).
  - destruct (is_ws c); by repeat constructor.
  - by constructor.
Qed.

Lemma trim_start_length s : (length (trim_start s) <= length s)%nat.
Proof.
  destruct (trim_start_suffix s) as [k ->]. rewrite length_drop. lia.
Qed.

Lemma trim_end_length s : (length (trim_end s) <= length s)%nat.
Proof.
  induction s as [|c r IH]; simpl; [lia|].
  destruct (trim_end r); [destruct (is_ws c)|]; simpl in *; lia.
Qed.

Lemma trim_start_id s :
  (forall c, head s = Some c -> is_ws c = false) -> trim_start s = s.
Proof.
  destruct s as [|c r]; simpl; [done|]. intros H.
  by rewrite (H c eq_refl).
Qed.

Lemma trim_end_id s :
  (forall c, last s = Some c -> is_ws c = false) -> trim_end s = s.
Proof.
  induction s as [|c r IH]; intros H; simpl; [done|].
  destruct r as [|b t].
  - simpl. by rewrite (H c eq_refl).
  - rewrite IH; [done|]. intros c' Hc'. apply H.
    by rewrite last_cons_cons.
Qed.

Lemma run_short f s :
  (forall c r, s = c :: r -> f c = false) -> run f s = 0%nat.
Proof. destruct s as [|c r]; simpl; [done|]. intros H. by rewrite (H c r). Qed.

Lemma no_ws_pair_run s : no_ws_pair s -> (run is_ws s <= 1)%nat.
Proof.
  destruct s as [|a [|b r]]; simpl; try lia.
  - destruct (is_ws a); lia.
  - intros [Hab _]. destruct (is_ws a); [|lia].
    simpl in Hab. rewrite Hab. lia.
Qed.

End TextFacts.

(** X17.  What [cleanText] returns holds no CR and no LF, has no two units
    of white space side by side, and neither starts nor ends with white
    space. *)
Theorem cleanText_normalises_white_space text :
  let t := Text.cleanText text in
  Forall (fun c => Text.is_nl c = false) t
  /\ Text.no_ws_pair t
  /\ (forall c, head t = Some c -> Text.is_ws c = false)
  /\ (forall c, last t = Some c -> Text.is_ws c = false).
Proof.
  destruct text as [[|c0 r0]|]; simpl; try by splits.
  set (s := Text.replace_g Text.link _).
  unfold Text.trim.
  assert (Hnl : Forall (fun c => Text.is_nl c = false)
                  (Text.replace_g Text.spaces
                     (Text.replace_g Text.newlines s))).
  { apply TextFacts.replace_all_Forall.
    - intros t rep n _ Hm. unfold Text.spaces in Hm.
      destruct (Text.run Text.is_ws t) as [|[|k]]; try done.
      injection Hm as <- <-. by repeat constructor.
    - by apply TextFacts.no_nl_after_newlines. }
  assert (Hpair : Text.no_ws_pair
                    (Text.replace_g Text.spaces
                       (Text.replace_g Text.newlines s)))
    by (by apply TextFacts.no_ws_pair_after_spaces).
  set (u := Text.replace_g Text.spaces _) in *.
  splits.
  - by apply TextFacts.trim_end_Forall, TextFacts.trim_start_Forall.
  - apply TextFacts.trim_end_no_ws_pair.
    destruct (TextFacts.trim_start_suffix u) as [k ->].
    by apply TextFacts.no_ws_pair_drop.
  - intros c Hc.
    destruct (Text.trim_end (Text.trim_start u)) as [|c' t] eqn:Ht; [done|].
    injection Hc as ->.
    destruct (TextFacts.trim_end_head _ _ _ Ht) as [t0 Hs].
    by eapply TextFacts.trim_start_head.
  - apply TextFacts.trim_end_last.
Qed.

(** X18.  [cleanText] never gives back more units than it was given. *)
Theorem cleanText_is_never_longer s :
  (length (Text.cleanText (Some s)) <= length s)%nat.
Proof.
  destruct s as [|c0 r0]; [done|]. unfold Text.cleanText, Text.trim.
  set (s := c0 :: r0).
  pose proof (TextFacts.replace_all_length _ TextFacts.tag_shrinking
                (length s) s) as H1.
  fold (Text.replace_g Text.tag s) in H1.
  set (s1 := Text.replace_g Text.tag s) in *.
  pose proof (TextFacts.replace_all_length _ TextFacts.mention_shrinking
                (length s1) s1) as H2.
  fold (Text.replace_g Text.mention s1) in H2.
  set (s2 := Text.replace_g Text.mention s1) in *.
  pose proof (TextFacts.replace_all_length _ TextFacts.link_shrinking
                (length s2) s2) as H3.
  fold (Text.replace_g Text.link s2) in H3.
  set (s3 := Text.replace_g Text.link s2) in *.
  pose proof (TextFacts.replace_all_length _ TextFacts.newlines_shrinking
                (length s3) s3) as H4.
  fold (Text.replace_g Text.newlines s3) in H4.
  set (s4 := Text.replace_g Text.newlines s3) in *.
  pose proof (TextFacts.replace_all_length _ TextFacts.spaces_shrinking
                (length s4) s4) as H5.
  fold (Text.replace_g Text.spaces s4) in H5.
  set (s5 := Text.replace_g Text.spaces s4) in *.
  pose proof (TextFacts.trim_start_length s5).
  pose proof (TextFacts.trim_end_length (Text.trim_start s5)).
  lia.
Qed.

(** X19.  Text without '<', '[', CR or LF, without two units of white
    space side by side and without white space at either end comes out of
    [cleanText] as it went in. *)
Theorem cleanText_leaves_plain_text s :
  Text.plain s -> Text.cleanText (Some s) = s.
Proof.
  intros (Hchars & Hpair & Hhead & Hlast).
  destruct s as [|c0 r0]; [done|]. unfold Text.cleanText.
  set (s := c0 :: r0) in *.
  assert (Hdrop : forall k c r, drop k s = c :: r ->
                    c <> 60 /\ c <> 91 /\ Text.is_nl c = false).
  { intros k c r Hk.
    assert (Hf := Forall_drop _ k _ Hchars). rewrite Hk in Hf.
    by apply Forall_cons in Hf as [Hc _]. }
  assert (Htag : Text.replace_g Text.tag s = s).
  { apply TextFacts.replace_all_none. intros k.
    destruct (drop k s) as [|c r] eqn:Hk; [done|].
    destruct (Hdrop _ _ _ Hk) as (H60 & _). unfold Text.tag.
    destruct (Z.eqb_spec c 60); [done|done]. }
  assert (Hmention : Text.replace_g Text.mention s = s).
  { apply TextFacts.replace_all_none. intros k.
    destruct (drop k s) as [|c r] eqn:Hk; [done|].
    destruct (Hdrop _ _ _ Hk) as (_ & H91 & _). unfold Text.mention.
    destruct r; [done|]. destruct (Z.eqb_spec c 91); [done|done]. }
  assert (Hlink : Text.replace_g Text.link s = s).
  { apply TextFacts.replace_all_none. intros k.
    destruct (drop k s) as [|c r] eqn:Hk; [done|].
    destruct (Hdrop _ _ _ Hk) as (_ & H91 & _). unfold Text.link.
    destruct (Z.eqb_spec c 91); [done|done]. }
  assert (Hnewlines : Text.replace_g Text.newlines s = s).
  { apply TextFacts.replace_all_none. intros k. unfold Text.newlines.
    rewrite TextFacts.run_short; [done|].
    intros c r Hk. by destruct (Hdrop _ _ _ Hk) as (_ & _ & Hnl). }
  assert (Hspaces : Text.replace_g Text.spaces s = s).
  { apply TextFacts.replace_all_none. intros k. unfold Text.spaces.
    pose proof (TextFacts.no_ws_pair_run _
                  (TextFacts.no_ws_pair_drop k _ Hpair)) as Hrun.
    by destruct (Text.run Text.is_ws (drop k s)) as [|[|n]]; try lia. }
  rewrite Htag, Hmention, Hlink, Hnewlines, Hspaces. unfold Text.trim.
  rewrite TextFacts.trim_start_id by done.
  by apply TextFacts.trim_end_id.
Qed.

Lemma cleanText_leaves_plain_text_witness :
  Text.cleanText (Some (Text.units "Fix the build")) = Text.units "Fix the build".
Proof.
  apply (cleanText_leaves_plain_text (Text.units "Fix the build")).
  split; [|split; [|split]].
  - vm_compute. repeat constructor; discriminate.
  - vm_compute. repeat split.
  - intros c [= <-]. reflexivity.
  - intros c [= <-]. reflexivity.
Defined.

(** ** Tasks *)

Module TaskFacts.
Import Text Transformer.

Lemma get_set_key k k' v o :
  get k (set_key k' v o) = if String.eqb k' k then Some v else get k o.
Proof.
  induction o as [|[k0 v0] o IH]; cbn [set_key get].
  - reflexivity.
  - destruct (String.eqb k0 k') eqn:E0; cbn [get].
    + apply String.eqb_eq in E0 as ->. by destruct (String.eqb k' k).
    + rewrite IH. destruct (String.eqb k0 k) eqn:E1; [|done].
      apply String.eqb_eq in E1 as ->. by rewrite String.eqb_sym, E0.
Qed.

(** A key that the second object sets once, and first among its keys as
    [get] reads them, has its value in the spread. *)
Lemma get_spread_first k v a b :
  get k (spread a ((k, v) :: b)) = Some v \/ exists v', get k b = Some v'.
Proof.
  unfold spread. cbn [fold_left fst snd].
  assert (Hgen : forall b a, get k a = Some v ->
            get k (fold_left (fun acc kv => set_key kv.1 kv.2 acc) b a) = Some v
            \/ exists v', get k b = Some v').
  { clear. induction b as [|[k1 v1] b IH]; intros a Ha; cbn [fold_left get].
    - by left.
    - destruct (String.eqb k1 k) eqn:E; [right; eauto|].
      apply IH. cbn [fst snd]. by rewrite get_set_key, E. }
  apply Hgen. rewrite get_set_key, String.eqb_refl. done.
Qed.

Lemma task_names issue t meta :
  In t (generateTrainingTasks issue) -> names issue (item_of meta t).
Proof.
  assert (Hbase : forall extra,
    (extra = [] \/ exists k v, extra = [(k, v)] /\ k <> "issue_id"%string
                               /\ k <> "project"%string) ->
    get "issue_id" (spread meta (base_of issue ++ extra))
    = Some (JText (key issue))
    /\ get "project" (spread meta (base_of issue ++ extra))
       = Some (JText (or_default (p_key <$> project (fields issue)) Unknown))).
  { intros extra Hextra. unfold base_of. cbn [app].
    set (pv := JText (or_default (p_key <$> project (fields issue)) Unknown)).
    assert (Hno1 : get "issue_id" (("project"%string, pv) :: extra) = None).
    { cbn [get]. destruct Hextra as [->|(k & v & -> & Hk & _)]; cbn; [done|].
      destruct (String.eqb k "issue_id") eqn:E; [|done].
      by apply String.eqb_eq in E. }
    assert (Hno2 : get "project" extra = None).
    { destruct Hextra as [->|(k & v & -> & _ & Hk)]; cbn; [done|].
      destruct (String.eqb k "project") eqn:E; [|done].
      by apply String.eqb_eq in E. }
    split.
    - destruct (get_spread_first "issue_id" (JText (key issue)) meta
                  (("project"%string, pv) :: extra))
        as [H|[v' H]]; [done|congruence].
    - unfold spread. cbn [fold_left fst snd].
      destruct (get_spread_first "project" pv
                  (set_key "issue_id" (JText (key issue)) meta) extra)
        as [H|[v' H]]; [done|congruence]. }
  unfold names, item_of. cbn [metadata].
  revert t. task_cases; intros t Ht; cbn [In app] in Ht.
  all: repeat destruct Ht as [<-|Ht]; try done; cbn [metadata].
  all: first
         [ apply (Hbase []); by left
         | apply Hbase; right; do 2 eexists; split; [reflexivity|done] ].
Qed.

Lemma write_tasks_spec meta tasks t :
  fold_left (write_task meta) tasks t
  = mkTally (written t ++ map (item_of meta) tasks) (totalIssues t)
            (totalTasks t + length tasks) (skippedLowQuality t).
Proof.
  revert t. induction tasks as [|task tasks IH]; intros t; cbn [fold_left].
  - destruct t; cbn. by rewrite app_nil_r, Nat.add_0_r.
  - rewrite IH. unfold write_task; cbn. f_equal.
    + by rewrite <- app_assoc.
    + lia.
Qed.

Lemma process_issues_spec file issues t :
  let met := map (pair file) issues in
  fold_left (process_issue file) issues t
  = mkTally (written t ++ flat_map items_of (filter quality met))
            (totalIssues t + length (filter quality met))
            (totalTasks t + length (flat_map items_of (filter quality met)))
            (skippedLowQuality t
             + length (filter (fun fi => ~ quality fi) met)).
Proof.
  cbv zeta. revert t.
  induction issues as [|issue issues IH]; intros t; cbn [fold_left map].
  - destruct t; cbn. by rewrite app_nil_r, !Nat.add_0_r.
  - rewrite IH. unfold process_issue.
    destruct (isQualityIssue issue) eqn:Hq; cbn [negb].
    + rewrite (filter_cons_True quality) by done.
      rewrite (filter_cons_False (fun fi => ~ quality fi))
        by (unfold quality; cbn; intros H; by apply H).
      assert (Hi : items_of (file, issue)
                   = map (item_of (issue_metadata file issue))
                         (generateTrainingTasks issue)) by done.
      rewrite write_tasks_spec. cbn [written totalIssues totalTasks
        skippedLowQuality flat_map length].
      rewrite length_app, Hi, length_map, <- app_assoc. f_equal; lia.
    + rewrite (filter_cons_False quality)
        by (unfold quality; cbn; congruence).
      rewrite (filter_cons_True (fun fi => ~ quality fi))
        by (unfold quality; cbn; congruence).
      cbn [written totalIssues totalTasks skippedLowQuality length].
      f_equal; lia.
Qed.

Lemma process_files_spec files t t' :
  let met := flat_map (fun fc => map (pair fc.1) (default [] (fc.2 ≫= issues_in)))
                      files in
  process_files files t = Some t' ->
  t' = mkTally (written t ++ flat_map items_of (filter quality met))
               (totalIssues t + length (filter quality met))
               (totalTasks t + length (flat_map items_of (filter quality met)))
               (skippedLowQuality t
                + length (filter (fun fi => ~ quality fi) met)).
Proof.
  cbv zeta. revert t t'.
  induction files as [|[file content] files IH]; intros t t';
    cbn [process_files].
  - intros [= <-]. destruct t; cbn. by rewrite app_nil_r, !Nat.add_0_r.
  - destruct (content ≫= issues_in) as [issues|] eqn:Hc; [|done].
    intros H. apply IH in H as ->. rewrite process_issues_spec.
    cbn [written totalIssues totalTasks skippedLowQuality flat_map fst snd].
    rewrite Hc. cbn [default].
    rewrite !filter_app, !flat_map_app, !length_app, <- app_assoc.
    unfold Datatypes.id. f_equal; lia.
Qed.

Lemma transform_spec dir t :
  transform (Some dir) = Complete t ->
  written t = flat_map items_of (filter quality (read_issues dir))
  /\ totalIssues t = length (filter quality (read_issues dir))
  /\ totalTasks t = length (written t)
  /\ skippedLowQuality t
     = length (filter (fun fi => ~ quality fi) (read_issues dir)).
Proof.
  unfold transform, read_issues.
  destruct (length _ =? 0)%nat; [done|].
  destruct (process_files _ _) as [t'|] eqn:H; [|done].
  intros [= <-]. apply process_files_spec in H as ->. cbn. done.
Qed.

Lemma filter_split {A} (P : A -> Prop) `{!forall x, Decision (P x)} (l : list A) :
  (length (filter P l) + length (filter (fun x => ~ P x) l) = length l)%nat.
Proof.
  induction l as [|x l IH]; [done|].
  destruct (decide (P x)).
  - rewrite (filter_cons_True P), (filter_cons_False (fun x => ~ P x)) by tauto.
    cbn [length]. lia.
  - rewrite (filter_cons_False P), (filter_cons_True (fun x => ~ P x)) by tauto.
    cbn [length]. lia.
Qed.

Lemma tasks_between issue :
  (2 <= length (generateTrainingTasks issue) <= 7)%nat.
Proof. task_cases; cbn [length app]; lia. Qed.

Lemma items_between (l : list (list Z * JiraIssue)) :
  (2 * length l <= length (flat_map items_of l) <= 7 * length l)%nat.
Proof.
  induction l as [|fi l IH]; cbn [flat_map length]; [lia|].
  assert (Hi : length (items_of fi) = length (generateTrainingTasks fi.2))
    by apply length_map.
  rewrite length_app, Hi. pose proof (tasks_between fi.2). lia.
Qed.

Lemma question_task issue :
  exists task,
    In task (generateTrainingTasks issue)
    /\ task_type task = "question_answering"%string
    /\ output task = take 300 (cleanText (description (fields issue))).
Proof.
  assert (H : Exists (fun task =>
                task_type task = "question_answering"%string
                /\ output task
                   = take 300 (cleanText (description (fields issue))))
              (generateTrainingTasks issue)).
  { task_cases; cbn [app];
      repeat first [ apply Exists_cons_hd; split; reflexivity
                   | apply Exists_cons_tl ]. }
  apply Exists_exists in H as (task & Hin & H).
  exists task. split; [by apply list_elem_of_In|done].
Qed.

End TaskFacts.

(** X20.  [generateTrainingTasks] gives every issue between two and seven
    tasks, of the seven kinds and in their fixed order, each kind at most
    once; the status classification and the question are always among
    them, and an extraction task never comes without a summarization task. *)
Theorem every_issue_gives_two_to_seven_tasks (issue : Transformer.JiraIssue) :
  let kinds := map Transformer.task_type
                   (Transformer.generateTrainingTasks issue) in
  sublist kinds Transformer.TASK_TYPES
  /\ In "classification"%string kinds
  /\ In "question_answering"%string kinds
  /\ (In "extraction"%string kinds -> In "summarization"%string kinds)
  /\ (2 <= length kinds <= 7)%nat.
Proof.
  cbv zeta. rewrite length_map.
  split; [|split; [|split; [|split]]];
    [| | | | apply TaskFacts.tasks_between].
  all: Transformer.task_cases;
    cbn [map app Transformer.task_type]; unfold Transformer.TASK_TYPES.
  all: try (repeat constructor; fail).
  all: try (cbn; repeat (first [left; reflexivity | right]); fail).
  all: cbn; intros H; repeat destruct H as [H|H]; try discriminate H; try done.
  all: repeat (first [left; reflexivity | right]).
Qed.

(** X21.  The answer of a question task and of a conversation task is at
    most 300 code units long, and the input of an extraction task at most
    800, however long the issue's description and comments are. *)
Theorem task_texts_are_cut (issue : Transformer.JiraIssue) :
  Forall (fun t =>
            (Transformer.task_type t = "question_answering"%string
             \/ Transformer.task_type t = "conversation"%string ->
             (length (Transformer.output t) <= 300)%nat)
            /\ (Transformer.task_type t = "extraction"%string ->
                (length (Transformer.input t) <= 800)%nat))
         (Transformer.generateTrainingTasks issue).
Proof.
  Transformer.task_cases; cbn [app];
    repeat first [apply Forall_nil_2 | apply Forall_cons_2];
    (split;
     cbn [Transformer.task_type Transformer.output Transformer.input];
     [try (intros [H|H]; discriminate H)|try (intros H; discriminate H)]);
    intros _; rewrite length_take; lia.
Qed.

(** X22.  When [transform] completes, its counters add up: the tasks
    counted are the items written, every issue read from a [.json] file of
    the raw directory is either counted as processed or as skipped, and
    each processed issue accounts for two to seven of the tasks. *)
Theorem transform_counters_add_up (dir : Transformer.RawDir)
    (t : Transformer.Tally) :
  Transformer.transform (Some dir) = Transformer.Complete t ->
  Transformer.totalTasks t = length (Transformer.written t)
  /\ (Transformer.totalIssues t + Transformer.skippedLowQuality t)%nat
     = length (Transformer.read_issues dir)
  /\ (2 * Transformer.totalIssues t <= Transformer.totalTasks t
      <= 7 * Transformer.totalIssues t)%nat.
Proof.
  intros H. apply TaskFacts.transform_spec in H as (Hw & Hi & Ht & Hs).
  split; [done|]. split.
  - rewrite Hi, Hs. apply TaskFacts.filter_split.
  - rewrite Ht, Hw, Hi. apply TaskFacts.items_between.
Qed.

Lemma transform_counters_add_up_witness :
  exists t,
    Transformer.transform (Some Transformer.kafka_dir) = Transformer.Complete t
    /\ Transformer.totalTasks t = 3%nat
    /\ Transformer.totalTasks t = length (Transformer.written t).
Proof.
  eexists. split; [vm_compute; reflexivity|]. split; [reflexivity|].
  apply (transform_counters_add_up Transformer.kafka_dir).
  vm_compute. reflexivity.
Defined.

(** X23.  Every item [transform] writes comes from an issue that passed
    the quality filter, and its metadata names that issue by its [key] and
    its project by the project's key, or [Unknown]: the issue's [id] and
    the name of the raw file, which [transform] puts there first, never
    reach the output. *)
Theorem written_items_name_issue_by_key (dir : Transformer.RawDir)
    (t : Transformer.Tally) :
  Transformer.transform (Some dir) = Transformer.Complete t ->
  Forall (fun item =>
            exists fi, In fi (Transformer.read_issues dir)
                       /\ Transformer.isQualityIssue fi.2 = true
                       /\ Transformer.names fi.2 item)
         (Transformer.written t).
Proof.
  intros H. apply TaskFacts.transform_spec in H as (-> & _).
  apply Forall_forall. intros item Hin.
  apply list_elem_of_In, in_flat_map in Hin as (fi & Hfi & Hitem).
  apply list_elem_of_In, list_elem_of_filter in Hfi as [Hq Hfi].
  exists fi. split; [by apply list_elem_of_In|]. split; [done|].
  unfold Transformer.items_of in Hitem.
  apply in_map_iff in Hitem as (task & <- & Htask).
  by apply TaskFacts.task_names.
Qed.

Lemma written_items_name_issue_by_key_witness :
  exists t,
    Transformer.transform (Some Transformer.kafka_dir) = Transformer.Complete t
    /\ Forall (fun item =>
                 Transformer.get "issue_id" (Transformer.metadata item)
                 = Some (Transformer.JText [])
                 /\ Transformer.get "project" (Transformer.metadata item)
                    = Some (Transformer.JText Transformer.Unknown))
              (Transformer.written t)
    /\ Forall (fun item =>
                 exists fi, In fi (Transformer.read_issues Transformer.kafka_dir)
                            /\ Transformer.isQualityIssue fi.2 = true
                            /\ Transformer.names fi.2 item)
              (Transformer.written t).
Proof.
  eexists. split; [vm_compute; reflexivity|]. split.
  - vm_compute. repeat constructor.
  - apply (written_items_name_issue_by_key Transformer.kafka_dir).
    vm_compute. reflexivity.
Defined.

(** X24.  An issue can pass the quality filter with nothing left of its
    description once it is cleaned (none at all, or only markup); for each
    such issue [transform] still writes a question task, and its answer
    is the empty string. *)
Theorem issue_without_description_gets_empty_answer
    (dir : Transformer.RawDir) (t : Transformer.Tally)
    (file : list Z) (issue : Transformer.JiraIssue) :
  Transformer.transform (Some dir) = Transformer.Complete t ->
  In (file, issue) (Transformer.read_issues dir) ->
  Transformer.isQualityIssue issue = true ->
  Text.cleanText (Transformer.description (Transformer.fields issue)) = [] ->
  exists item,
    In item (Transformer.written t)
    /\ Transformer.task_type item = "question_answering"%string
    /\ Transformer.output item = []
    /\ Transformer.names issue item.
Proof.
  intros H Hin Hq Hd. apply TaskFacts.transform_spec in H as (-> & _).
  destruct (TaskFacts.question_task issue) as (task & Htask & Hty & Hout).
  rewrite Hd in Hout. cbn [take] in Hout.
  exists (Transformer.item_of (Transformer.issue_metadata file issue) task).
  split; [|split; [done|split; [done|by apply TaskFacts.task_names]]].
  apply in_flat_map. exists (file, issue). split.
  - apply list_elem_of_In, list_elem_of_filter. split; [done|].
    by apply list_elem_of_In.
  - unfold Transformer.items_of. cbn [fst snd]. by apply in_map.
Qed.

Lemma issue_without_description_gets_empty_answer_witness :
  exists t item,
    Transformer.transform (Some Transformer.kafka_dir) = Transformer.Complete t
    /\ In item (Transformer.written t)
    /\ Transformer.task_type item = "question_answering"%string
    /\ Transformer.output item = []
    /\ Transformer.names Transformer.keyless item.
Proof.
  eexists.
  destruct (issue_without_description_gets_empty_answer
              Transformer.kafka_dir _ (Text.units "KAFKA.json")
              Transformer.keyless eq_refl)
    as (item & H); [vm_compute; by left|reflexivity|reflexivity|].
  exists item. split; [vm_compute; reflexivity|exact H].
Defined.
